(** * DNSCrypt client: certificate resolver, encrypted exchange and codecs

    A shallow embedding of [protocol.go] and [types.go] of the [dnscrypt]
    package, and the properties of the package's specification stated
    over it.

    Conventions of the embedding.
    - A Go [byte] is a [Z] in [0, 256); a [[]byte] or a [string] is a
      [list Z].  Go [int] indices are [Z], so that [len(s) - 1] on an empty
      slice is [-1] as in the program.
    - A Go call either returns its values or panics ([run]).  The pair
      [(T, error)] a function returns is the pair [T * option error], with
      [None] for [nil].
    - What the program obtains from its environment (the DNS answer, the
      random draws, the clock, the datagram read from the socket) is an
      explicit argument; the cryptographic primitives and the DNS message
      codec are parameters of a section. *)

From Stdlib Require Import ZArith List Lia Bool.
From stdpp Require Import base list.
Import ListNotations.

Local Open Scope Z_scope.

(** ** Errors and the ways a call ends *)

(** The error values of the package, one constructor for each
    [errors.New] of the source, and the errors of the libraries it calls. *)
Inductive error : Type :=
| ErrNoAnswer            (* "No answer to pubkey DNS request" *)
| ErrNotTXT              (* "First answer not a TXT record" *)
| ErrNotDNSC             (* "TXT record is not a DNSC certificate" *)
| ErrNoSupportedCert     (* "No certificate for supported crypto constructions found" *)
| ErrInvalidSignature    (* "Invalid certificate Signature" *)
| ErrTimeTraveler        (* "Time traveler alert! ..." *)
| ErrNotYetValid         (* "Certificate is not yet valid" *)
| ErrExpired             (* "Certificate is no longer valid" *)
| ErrMagicMismatch       (* "Magic bytes do not match" *)
| ErrDecrypt             (* "Could not decrypt response" *)
| ErrInvalidPadding      (* "Invalid padding!" *)
| ErrInvalidEscape       (* "Invalid slash escaped character found!" *)
| ErrAtoi                (* strconv.Atoi: syntax or range error *)
| ErrEOF                 (* io.EOF *)
| ErrUnexpectedEOF       (* io.ErrUnexpectedEOF *)
| ErrExternal (code : Z) (* an error of a collaborator: DNS, net, rand *).

(** How a Go call ends: it returns, it panics at run time, or (in the model
    only) the bound given to a loop is used up. *)
Inductive run (A : Type) : Type :=
| Ret (a : A)
| Panic
| Fuel.
Arguments Ret {A} a.
Arguments Panic {A}.
Arguments Fuel {A}.

Definition bind {A B : Type} (m : run A) (k : A -> run B) : run B :=
  match m with
  | Ret a => k a
  | Panic => Panic
  | Fuel => Fuel
  end.

#[global] Instance run_ret : MRet run := @Ret.
#[global] Instance run_bind : MBind run := fun A B k m => bind m k.

(** ** Slices *)

Definition len {A : Type} (s : list A) : Z := Z.of_nat (length s).

(** [make([]byte, n)]: n zero bytes. *)
Definition make (n : Z) : list Z := replicate (Z.to_nat n) 0.

(** [s[i]]: panics outside [0, len(s)). *)
Definition index {A : Type} (s : list A) (i : Z) : run A :=
  if (0 <=? i) && (i <? len s) then
    match s !! Z.to_nat i with
    | Some x => Ret x
    | None => Panic
    end
  else Panic.

(** [s[i] = x]: panics outside [0, len(s)). *)
Definition store {A : Type} (s : list A) (i : Z) (x : A) : run (list A) :=
  if (0 <=? i) && (i <? len s) then Ret (<[Z.to_nat i := x]> s) else Panic.

(** [s[lo:hi]] on a slice or string whose capacity is its length: panics
    unless [0 <= lo <= hi <= len(s)]. *)
Definition slice {A : Type} (s : list A) (lo hi : Z) : run (list A) :=
  if (0 <=? lo) && (lo <=? hi) && (hi <=? len s) then
    Ret (take (Z.to_nat (hi - lo)) (drop (Z.to_nat lo) s))
  else Panic.

(** Conversion of an integer to [byte]. *)
Definition to_byte (x : Z) : Z := x mod 256.

Definition bytes_eqb (a b : list Z) : bool :=
  bool_decide (a = b).

(** ** Padding codec ([types.go]) *)

(** [bytes.TrimRight(s, cutset)] for a cutset of one ASCII byte [c]: the
    last byte is dropped for as long as it equals [c]. *)
Fixpoint TrimRight (s : list Z) (c : Z) : list Z :=
  match s with
  | [] => []
  | x :: r =>
      match TrimRight r c with
      | [] => if x =? c then [] else [x]
      | r' => x :: r'
      end
  end.

(** [addPadding].  [randInt] is what [rand.Int(rand.Reader, big.NewInt(255))]
    returned: a number in [0, 255) or an error. *)
Definition addPadding (randInt : Z + error) (unpadded : list Z)
  : run (list Z * option error) :=
  match randInt with
  | inr err => Ret ([], Some err)
  | inl paddingAmountBig =>
      let paddingAmount := to_byte paddingAmountBig in
      let padding := make paddingAmount in
      padding ← store padding 0 0x80;
      Ret (unpadded ++ padding, None)
  end.

(** [removePadding]. *)
Definition removePadding (padded : list Z) : run (list Z * option error) :=
  let unpadded := TrimRight padded 0x00 in
  last ← index unpadded (len unpadded - 1);
  if negb (last =? 0x80) then Ret ([], Some ErrInvalidPadding)
  else
    s ← slice unpadded 0 (len unpadded - 1);
    Ret (s, None).

(** ** Text unescape codec ([types.go]) *)

(** [unicode.IsDigit(rune(b))] for a byte [b]: on the Latin-1 range the
    function is the test ['0' <= r <= '9']. *)
Definition IsDigit (r : Z) : bool := (48 <=? r) && (r <=? 57).

(** The value of a string of decimal digits, [None] when a byte is not a
    digit. *)
Fixpoint digits_val (acc : Z) (s : list Z) : option Z :=
  match s with
  | [] => Some acc
  | d :: r => if IsDigit d then digits_val (10 * acc + (d - 48)) r else None
  end.

(** [strconv.Atoi]: an optional sign, then one or more decimal digits; the
    value 0 and an error on bad syntax, the nearest [int] and an error out
    of the 64-bit range. *)
Definition Atoi (s : list Z) : Z * option error :=
  let '(neg, body) :=
    match s with
    | c :: r =>
        if c =? 43 (* '+' *) then (false, r)
        else if c =? 45 (* '-' *) then (true, r)
        else (false, s)
    | [] => (false, s)
    end in
  match body with
  | [] => (0, Some ErrAtoi)
  | _ =>
      match digits_val 0 body with
      | None => (0, Some ErrAtoi)
      | Some v =>
          let v := if neg then - v else v in
          if v <? - 2 ^ 63 then (- 2 ^ 63, Some ErrAtoi)
          else if 2 ^ 63 - 1 <? v then (2 ^ 63 - 1, Some ErrAtoi)
          else (v, None)
      end
  end.

(** The guard of the [\DDD] branch,
    [j+2 < len(txt) && IsDigit(txt[j]) && IsDigit(txt[j+1]) && IsDigit(txt[j+2])],
    with the short-circuit evaluation of [&&]. *)
Definition threeDigits (txt : list Z) (j : Z) : run bool :=
  if j + 2 <? len txt then
    d0 ← index txt j;
    if IsDigit d0 then
      d1 ← index txt (j + 1);
      if IsDigit d1 then
        d2 ← index txt (j + 2);
        Ret (IsDigit d2)
      else Ret false
    else Ret false
  else Ret false.

(** The [for ; j < len(txt); i++] loop of [unpackTXT].  Every iteration
    moves [j] forward, so [len(txt)] iterations are enough; [fuel] bounds
    their number. *)
Fixpoint unpackTXT_loop (fuel : nat) (txt unpackedTXT : list Z) (i j : Z)
  : run (list Z * option error) :=
  if negb (j <? len txt) then
    out ← slice unpackedTXT 0 i;
    Ret (out, None)
  else
    match fuel with
    | O => Fuel
    | S fuel =>
        c ← index txt j;
        if c =? 0x5C then
          let j := j + 1 in
          if j =? len txt then
            (* break: the post statement i++ is not run *)
            out ← slice unpackedTXT 0 i;
            Ret (out, None)
          else
            ddd ← threeDigits txt j;
            if (ddd : bool) then
              s ← slice txt j (j + 3);
              let '(byteVal, err) := Atoi s in
              match err with
              | Some e => Ret (unpackedTXT, Some e)
              | None =>
                  unpackedTXT ← store unpackedTXT i (to_byte byteVal);
                  unpackTXT_loop fuel txt unpackedTXT (i + 1) (j + 3)
              end
            else
              c ← index txt j;
              if c =? 110 (* 'n' *) then
                unpackedTXT ← store unpackedTXT i 10;
                unpackTXT_loop fuel txt unpackedTXT (i + 1) (j + 1)
              else if c =? 116 (* 't' *) then
                unpackedTXT ← store unpackedTXT i 9;
                unpackTXT_loop fuel txt unpackedTXT (i + 1) (j + 1)
              else if c =? 114 (* 'r' *) then
                unpackedTXT ← store unpackedTXT i 13;
                unpackTXT_loop fuel txt unpackedTXT (i + 1) (j + 1)
              else
                Ret (unpackedTXT, Some ErrInvalidEscape)
        else
          unpackedTXT ← store unpackedTXT i c;
          unpackTXT_loop fuel txt unpackedTXT (i + 1) (j + 1)
    end.

(** [unpackTXT]. *)
Definition unpackTXT (txt : list Z) : run (list Z * option error) :=
  let unpackedTXT := make (len txt) in
  unpackTXT_loop (length txt) txt unpackedTXT 0 0.

(** ** Wire types ([types.go]) *)

(** The detailed structure of a DNSC certificate.  The fixed-size arrays
    are lists; the decoders below give them their sizes. *)
Record SignedBincertFields : Type := {
  ServerPublicKey : list Z;   (* [32]byte *)
  MagicQuery : list Z;        (* [8]byte *)
  Serial : list Z;            (* [4]byte *)
  TSBegin : Z;                (* uint32 *)
  TSEnd : Z                   (* uint32 *)
}.

(** The structure of a DNSC certificate as needed to verify the signature. *)
Record signedBincert : Type := {
  MagicCert : list Z;         (* [4]byte *)
  VersionMajor : Z;           (* uint16 *)
  VersionMinor : Z;           (* uint16 *)
  Signature : list Z;         (* [64]byte *)
  SignedData : list Z         (* [52]byte *)
}.

(** The header of an encrypted query. *)
Record dnsCryptQueryHeader : Type := {
  ClientMagic : list Z;       (* [8]byte *)
  ClientPublicKey : list Z;   (* [32]byte *)
  ClientNonce : list Z        (* [12]byte *)
}.

(** The header of an encrypted reply; its fields are [ServerMagic],
    [ClientNonce] and [ServerNonce] in the source. *)
Record dnsCryptResponseHeader : Type := {
  ServerMagic : list Z;       (* [8]byte *)
  EchoedClientNonce : list Z; (* ClientNonce [12]byte *)
  ServerNonce : list Z        (* [12]byte *)
}.

(** The zero value [SignedBincertFields{}]. *)
Definition zeroFields : SignedBincertFields :=
  {| ServerPublicKey := make 32; MagicQuery := make 8; Serial := make 4;
     TSBegin := 0; TSEnd := 0 |}.

(** ** [encoding/binary] *)

(** [binary.BigEndian.Uint16] and [Uint32]: the bytes as a base-256 number,
    most significant first. *)
Definition BigEndian (bs : list Z) : Z :=
  fold_left (fun acc b => acc * 256 + b) bs 0.

(** The [io.ReadFull] at the start of [binary.Read]: [size] bytes of the
    reader, [io.EOF] when the reader is empty, [io.ErrUnexpectedEOF] when it
    is shorter than [size]. *)
Definition ReadFull (r : list Z) (size : Z) : list Z + error :=
  if len r =? 0 then inr ErrEOF
  else if len r <? size then inr ErrUnexpectedEOF
  else inl (take (Z.to_nat size) r).

(** The bytes [lo, hi) of a decoding buffer. *)
Definition field (bs : list Z) (lo hi : Z) : list Z :=
  take (Z.to_nat (hi - lo)) (drop (Z.to_nat lo) bs).

(** [binary.Read(buf, binary.BigEndian, bincert)] for a [*signedBincert]:
    124 bytes. *)
Definition Read_signedBincert (r : list Z) : signedBincert + error :=
  match ReadFull r 124 with
  | inr err => inr err
  | inl bs =>
      inl {| MagicCert := field bs 0 4;
             VersionMajor := BigEndian (field bs 4 6);
             VersionMinor := BigEndian (field bs 6 8);
             Signature := field bs 8 72;
             SignedData := field bs 72 124 |}
  end.

(** [binary.Read] for a [*SignedBincertFields]: 52 bytes. *)
Definition Read_SignedBincertFields (r : list Z)
  : SignedBincertFields + error :=
  match ReadFull r 52 with
  | inr err => inr err
  | inl bs =>
      inl {| ServerPublicKey := field bs 0 32;
             MagicQuery := field bs 32 40;
             Serial := field bs 40 44;
             TSBegin := BigEndian (field bs 44 48);
             TSEnd := BigEndian (field bs 48 52) |}
  end.

(** [binary.Read] for a [*dnsCryptResponseHeader]: 32 bytes. *)
Definition Read_dnsCryptResponseHeader (r : list Z)
  : dnsCryptResponseHeader + error :=
  match ReadFull r 32 with
  | inr err => inr err
  | inl bs =>
      inl {| ServerMagic := field bs 0 8;
             EchoedClientNonce := field bs 8 20;
             ServerNonce := field bs 20 32 |}
  end.

(** [binary.Write] of a [dnsCryptQueryHeader]: the three arrays in order. *)
Definition Write_dnsCryptQueryHeader (h : dnsCryptQueryHeader) : list Z :=
  ClientMagic h ++ ClientPublicKey h ++ ClientNonce h.

(** ** Constants ([protocol.go]) *)

Definition certificateMagic : list Z := [68; 78; 83; 67].   (* "DNSC" *)
Definition resolverMagic : list Z :=
  [0x72; 0x36; 0x66; 0x6e; 0x76; 0x57; 0x6a; 0x38].
Definition dnsMaxSizeUDP : Z := 65536 - 20 - 8.

(** Conversion to [uint64]. *)
Definition to_uint64 (x : Z) : Z := x mod 2 ^ 64.

(** A resource record of the answer section: a [*dns.TXT] with its [Txt]
    strings, or a record of another type. *)
Inductive RR : Type :=
| TXT (Txt : list (list Z))
| OtherRR.

(** What one call of [ExchangeEncrypted] obtains from the system. *)
Record exchangeEnv : Type := {
  (* rand.Read on the client nonce half: the 12 bytes written, or an error *)
  rand_Read : list Z + error;
  (* box.GenerateKey(rand.Reader): the public and the private key *)
  GenerateKey : (list Z * list Z) + error;
  (* rand.Int in addPadding *)
  rand_Int : Z + error;
  (* net.Dial("udp", serverAddress) *)
  Dial : option error;
  (* the datagram handed over by the one Read on the connection *)
  conn_Read : list Z + error
}.

(** The content of an [n]-byte array after a reader has filled it. *)
Definition fill (n : Z) (bs : list Z) : list Z :=
  take (Z.to_nat n) (bs ++ make n).

(** [copy(dst, src)]: the first [min(len(dst), len(src))] bytes of [dst] are
    replaced by those of [src]. *)
Definition copy (dst src : list Z) : list Z :=
  take (length dst) src ++ drop (length src) dst.

Section Protocol.

(** [ed25519.Verify(publicKey, message, sig)]; the library panics on a
    public key of the wrong size. *)
Variable ed25519_Verify : list Z -> list Z -> list Z -> run bool.

(** [box.Seal(nil, message, nonce, peersPublicKey, privateKey)] and
    [box.Open(nil, box, nonce, peersPublicKey, privateKey)]. *)
Variable box_Seal : list Z -> list Z -> list Z -> list Z -> list Z.
Variable box_Open : list Z -> list Z -> list Z -> list Z -> option (list Z).

(** [dns.Msg], its zero value, [PackBuffer(nil)] and [Unpack]. *)
Variable Msg : Type.
Variable emptyMsg : Msg.
Variable PackBuffer : Msg -> list Z + error.
Variable Unpack : list Z -> Msg + error.

(** ** Certificate resolver *)

(** The [for _, answer := range in.Answer] loop of [GetValidCert], started
    with the current value of the pointer [bincert].  [inl] is the pointer
    when the loop ends, [inr] the error of a [return] inside the loop. *)
Fixpoint GetValidCert_loop (answers : list RR) (bincert : option signedBincert)
  : run (option signedBincert + error) :=
  match answers with
  | [] => Ret (inl bincert)
  | answer :: answers =>
      match answer with
      | OtherRR => Ret (inr ErrNotTXT)
      | TXT Txt =>
          txt0 ← index Txt 0;
          (* check for magic Bytes *)
          prefix ← slice txt0 0 5;
          if bytes_eqb prefix certificateMagic then Ret (inr ErrNotDNSC)
          else
            (* decode weird TXT record representation *)
            '(unpackedBinCert, err) ← unpackTXT txt0;
            match err with
            | Some e => Ret (inr e)
            | None =>
                (* parse outer structure for signature verification *)
                match Read_signedBincert unpackedBinCert with
                | inr e => Ret (inr e)
                | inl parsed =>
                    if negb (VersionMajor parsed =? 0x01) then
                      (* we do not support this version, look further *)
                      GetValidCert_loop answers None
                    else GetValidCert_loop answers (Some parsed)
                end
            end
      end
  end.

(** [GetValidCert].  [exchange] is what [dns.Exchange(m, serverAddress)]
    returned (the answer section of the reply, or an error) and [nowSigned]
    is [time.Now().Unix()], an [int64]. *)
Definition GetValidCert (exchange : list RR + error) (providerKey : list Z)
    (nowSigned : Z) : run (SignedBincertFields * option error) :=
  match exchange with
  | inr err => Ret (zeroFields, Some err)
  | inl Answer =>
      if len Answer =? 0 then Ret (zeroFields, Some ErrNoAnswer)
      else
        scanned ← GetValidCert_loop Answer None;
        match scanned with
        | inr err => Ret (zeroFields, Some err)
        | inl None =>
            (* have we found a supported certificate? *)
            Ret (zeroFields, Some ErrNoSupportedCert)
        | inl (Some bincert) =>
            (* check signature *)
            valid ← ed25519_Verify providerKey (SignedData bincert)
                                   (Signature bincert);
            if negb (valid : bool) then Ret (zeroFields, Some ErrInvalidSignature)
            else
              (* parse inner structure to get pubkey, validity dates, etc. *)
              match Read_SignedBincertFields (SignedData bincert) with
              | inr err => Ret (zeroFields, Some err)
              | inl bincertFields =>
                  (* is the certificate valid? *)
                  if 0 <=? nowSigned then
                    let now := to_uint64 nowSigned in
                    (* compare with timestamps in cert *)
                    if now <? to_uint64 (TSBegin bincertFields) then
                      Ret (zeroFields, Some ErrNotYetValid)
                    else if to_uint64 (TSEnd bincertFields) <? now then
                      Ret (zeroFields, Some ErrExpired)
                    else Ret (bincertFields, None)
                  else Ret (zeroFields, Some ErrTimeTraveler)
              end
        end
  end.

(** ** Encrypted exchange engine *)

(** [ExchangeEncrypted].  The result is the list of datagrams written to
    the connection and the pair the function returns. *)
Definition ExchangeEncrypted (env : exchangeEnv) (msg : Msg)
    (bincertFields : SignedBincertFields)
  : run (list (list Z) * (Msg * option error)) :=
  (* Client Nonce *)
  match rand_Read env with
  | inr err => Ret ([], (emptyMsg, Some err))
  | inl nonceHalf =>
  (* KeyPair *)
  match GenerateKey env with
  | inr err => Ret ([], (emptyMsg, Some err))
  | inl (clientPK, clientSK) =>
  let queryHeader :=
    {| ClientMagic := MagicQuery bincertFields;
       ClientPublicKey := clientPK;
       ClientNonce := fill 12 nonceHalf |} in
  match PackBuffer msg with
  | inr err => Ret ([], (emptyMsg, Some err))
  | inl serializedDNSQuery =>
  (* add padding *)
  '(serializedDNSQuery, err) ← addPadding (rand_Int env) serializedDNSQuery;
  match err with
  | Some err => Ret ([], (emptyMsg, Some err))
  | None =>
  (* build nonce: <nonce> := <client_nonce><12 zeros> *)
  let nonce := copy (make 24) (ClientNonce queryHeader ++ make 16) in
  let encryptedQuery :=
    box_Seal serializedDNSQuery nonce (ServerPublicKey bincertFields)
             clientSK in
  (* serialize header and encrypted query to buffer *)
  let dnscryptQuery := Write_dnsCryptQueryHeader queryHeader ++ encryptedQuery in
  match Dial env with
  | Some err => Ret ([], (emptyMsg, Some err))
  | None =>
  (* send query *)
  let sent := [dnscryptQuery] in
  (* receive *)
  match conn_Read env with
  | inr err => Ret (sent, (emptyMsg, Some err))
  | inl datagram =>
  let n := Z.min (len datagram) dnsMaxSizeUDP in
  let p := copy (make dnsMaxSizeUDP) (take (Z.to_nat n) datagram) in
  (* parse response header *)
  responseHeaderBytes ← slice p 0 32;
  match Read_dnsCryptResponseHeader responseHeaderBytes with
  | inr err => Ret (sent, (emptyMsg, Some err))
  | inl responseHeader =>
  (* check magic bytes *)
  if negb (bytes_eqb (ServerMagic responseHeader) resolverMagic) then
    Ret (sent, (emptyMsg, Some ErrMagicMismatch))
  else
  (* encrypted reply *)
  encryptedResponse ← slice p 32 n;
  (* decrypt the reply with info from the header *)
  let nonce :=
    copy nonce (EchoedClientNonce responseHeader ++ ServerNonce responseHeader) in
  match box_Open encryptedResponse nonce (ServerPublicKey bincertFields)
                 clientSK with
  | None => Ret (sent, (emptyMsg, Some ErrDecrypt))
  | Some dnsResponse =>
  (* strip padding from the decrypted dns response *)
  '(dnsResponse, err) ← removePadding dnsResponse;
  match err with
  | Some err => Ret (sent, (emptyMsg, Some err))
  | None =>
  (* parse dns response *)
  match Unpack dnsResponse with
  | inr err => Ret (sent, (emptyMsg, Some err))
  | inl responseMsg => Ret (sent, (responseMsg, None))
  end end end end end end end end end end.

End Protocol.

(** ** The decoding of the text form, as the specification words it *)

(** The byte a single-character escape stands for. *)
Definition escapeChar (e : Z) : option Z :=
  if e =? 110 then Some 10          (* \n: newline *)
  else if e =? 116 then Some 9      (* \t: tab *)
  else if e =? 114 then Some 13     (* \r: carriage return *)
  else None.

(** The number three ASCII digits write in decimal. *)
Definition decimal3 (d1 d2 d3 : Z) : Z :=
  100 * (d1 - 48) + 10 * (d2 - 48) + (d3 - 48).

Definition emit (b : Z) (r : list Z * bool) : list Z * bool :=
  (b :: fst r, snd r).

(** The decoding read off the specification of the text unescape codec,
    token by token from the left: the bytes decoded and whether the input
    was decoded to its end ([false]: a decode failure).  A backslash and
    three digits give one byte, a backslash and [n], [t] or [r] give one
    byte, a backslash and another character is a failure, a backslash that
    ends the input ends the output, and any other byte stands for itself.
    The byte of [\DDD] is the number [DDD] reduced to a byte. *)
Fixpoint unescape (txt : list Z) : list Z * bool :=
  match txt with
  | [] => ([], true)
  | c :: rest =>
      if c =? 0x5C then
        match rest with
        | [] => ([], true)
        | e :: rest1 =>
            let single :=
              match escapeChar e with
              | Some b => emit b (unescape rest1)
              | None => ([], false)
              end in
            match rest1 with
            | d2 :: d3 :: rest3 =>
                if IsDigit e && IsDigit d2 && IsDigit d3
                then emit (to_byte (decimal3 e d2 d3)) (unescape rest3)
                else single
            | _ => single
            end
        end
      else emit c (unescape rest)
  end.

(** What [unpackTXT] hands back for a decoding of an input of [n] bytes:
    the decoded bytes and no error, or the whole [n]-byte buffer (the
    decoded bytes, then zeros) and the escape error. *)
Definition returned (n : nat) (r : list Z * bool) : list Z * option error :=
  if snd r then (fst r, None)
  else (fst r ++ replicate (n - length (fst r)) 0, Some ErrInvalidEscape).

(** ** Definitions used in the statements and proofs *)

(** The buffer [unpackedTXT] of [n] bytes once the bytes [acc] are written
    at its start. *)
Definition buffer (n : nat) (acc : list Z) : list Z :=
  acc ++ replicate (n - length acc) 0.

(** The pair the loop returns when [acc] is written and the rest of the
    input decodes as [r]. *)
Definition finished (n : nat) (acc : list Z) (r : list Z * bool)
  : list Z * option error :=
  if snd r then (acc ++ fst r, None)
  else (buffer n (acc ++ fst r), Some ErrInvalidEscape).

(** The certificate the loop body of [GetValidCert] decodes from one
    answer: the first string of a TXT record, unescaped and read as a
    [signedBincert]. *)
Definition parseAnswer (answer : RR) : option signedBincert :=
  match answer with
  | TXT (txt0 :: _) =>
      match unpackTXT txt0 with
      | Ret (unpackedBinCert, None) =>
          match Read_signedBincert unpackedBinCert with
          | inl parsed => Some parsed
          | inr _ => None
          end
      | _ => None
      end
  | _ => None
  end.

(** What the loop keeps of a decoded certificate. *)
Definition supported (c : signedBincert) : option signedBincert :=
  if VersionMajor c =? 0x01 then Some c else None.

(** The receive buffer [p] after the read of a datagram. *)
Definition received (datagram : list Z) : list Z :=
  copy (make dnsMaxSizeUDP)
       (take (Z.to_nat (Z.min (len datagram) dnsMaxSizeUDP)) datagram).

(** A byte value. *)
Definition is_byte (b : Z) : Prop := 0 <= b < 256.

(** The form [\DDD] of a byte: a backslash and the three decimal digits of
    its value, the form the packing cited above [unpackTXT] gives to the
    bytes it does not leave as they are. *)
Definition escapeDDD (b : Z) : list Z :=
  [0x5C; 48 + b / 100; 48 + (b / 10) mod 10; 48 + b mod 10].

(** ** Test vectors *)

(** Test vectors: the text of a certificate as a TXT record carries it.
    The two version fields are the escapes [\000\00v] and [\000\000]; the
    signature is 64 bytes ['S'], the server key 32 bytes [pk], the client
    magic 8 bytes ['M'], the serial ["0001"]; the validity starts at
    0x60000000 (2021) and ends at 0x7E000000 (2036). *)
Definition escaped16 (v : Z) : list Z :=
  [0x5C; 48; 48; 48; 0x5C; 48; 48; 48 + v].

Definition certText (magic : list Z) (major pk : Z) : list Z :=
  magic ++ escaped16 major ++ escaped16 0
    ++ replicate 64 83
    ++ replicate 32 pk ++ replicate 8 77 ++ [48; 48; 48; 49]
    ++ [0x60; 0x5C; 48; 48; 48; 0x5C; 48; 48; 48; 0x5C; 48; 48; 48]
    ++ [0x7E; 0x5C; 48; 48; 48; 0x5C; 48; 48; 48; 0x5C; 48; 48; 48].

Definition certSignedData (pk : Z) : list Z :=
  replicate 32 pk ++ replicate 8 77 ++ [48; 48; 48; 49]
    ++ [0x60; 0; 0; 0] ++ [0x7E; 0; 0; 0].

Definition certParsed (magic : list Z) (major pk : Z) : signedBincert :=
  {| MagicCert := magic; VersionMajor := major; VersionMinor := 0;
     Signature := replicate 64 83; SignedData := certSignedData pk |}.

Definition certFields (pk : Z) : SignedBincertFields :=
  {| ServerPublicKey := replicate 32 pk; MagicQuery := replicate 8 77;
     Serial := [48; 48; 48; 49];
     TSBegin := 0x60000000; TSEnd := 0x7E000000 |}.

(** A verification that accepts every signature, and one that accepts
    none. *)
Definition acceptAll (publicKey message sig : list Z) : run bool := Ret true.
Definition rejectAll (publicKey message sig : list Z) : run bool := Ret false.

(** A provider key and a time inside the validity of the test vectors. *)
Definition testKey : list Z := replicate 32 80.
Definition testNow : Z := 1793491200.

(** Test vectors for the exchange: a toy box whose ciphertext is the nonce
    followed by the message, opened only under the nonce it carries; DNS
    messages that are their own wire form. *)
Definition toySeal (message nonce peersPublicKey privateKey : list Z)
  : list Z := nonce ++ message.

Definition toyOpen (box nonce peersPublicKey privateKey : list Z)
  : option (list Z) :=
  if bytes_eqb (take (length nonce) box) nonce
  then Some (drop (length nonce) box) else None.

Definition testNonceHalf : list Z := [1; 2; 3; 4; 5; 6; 7; 8; 9; 10; 11; 12].
Definition testPK : list Z := replicate 32 80.
Definition testSK : list Z := replicate 32 83.

Definition testEnv (datagram : list Z) : exchangeEnv :=
  {| rand_Read := inl testNonceHalf;
     GenerateKey := inl (testPK, testSK);
     rand_Int := inl 3;
     Dial := None;
     conn_Read := inl datagram |}.

(** A reply whose header echoes the client nonce half 9,9,...,9, not the
    half 1,2,...,12 of [testEnv], with the server nonce half 5,5,...,5; the
    message [42; 43] padded by 0x80 0x00. *)
Definition foreignNonce : list Z := replicate 12 9 ++ replicate 12 5.
Definition foreignReply : list Z :=
  resolverMagic ++ foreignNonce ++ toySeal [42; 43; 0x80; 0] foreignNonce [] [].

(** * Properties *)

(** ** Slices *)

Lemma len_nonneg {A : Type} (s : list A) : 0 <= len s.
Proof. unfold len. lia. Qed.

Lemma len_app {A : Type} (s t : list A) : len (s ++ t) = len s + len t.
Proof. unfold len. rewrite length_app. lia. Qed.

Lemma len_make (n : Z) : 0 <= n -> len (make n) = n.
Proof. intros Hn. unfold len, make. rewrite length_replicate. lia. Qed.

Lemma index_ok {A : Type} (s : list A) (i : Z) (x : A) :
  0 <= i -> s !! Z.to_nat i = Some x -> index s i = Ret x.
Proof.
  intros Hi Hx. unfold index.
  assert (i < len s).
  { apply lookup_lt_Some in Hx. unfold len. lia. }
  replace (0 <=? i) with true by (symmetry; apply Z.leb_le; lia).
  replace (i <? len s) with true by (symmetry; apply Z.ltb_lt; lia).
  simpl. now rewrite Hx.
Qed.

Lemma index_out {A : Type} (s : list A) (i : Z) :
  i < 0 \/ len s <= i -> index s i = Panic.
Proof.
  intros H. unfold index.
  destruct (Z.leb_spec 0 i), (Z.ltb_spec i (len s)); simpl; trivial; lia.
Qed.

Lemma store_ok {A : Type} (s : list A) (i : Z) (x : A) :
  0 <= i < len s -> store s i x = Ret (<[Z.to_nat i := x]> s).
Proof.
  intros H. unfold store.
  replace (0 <=? i) with true by (symmetry; apply Z.leb_le; lia).
  replace (i <? len s) with true by (symmetry; apply Z.ltb_lt; lia).
  reflexivity.
Qed.

Lemma slice_ok {A : Type} (s : list A) (lo hi : Z) :
  0 <= lo <= hi -> hi <= len s ->
  slice s lo hi = Ret (take (Z.to_nat (hi - lo)) (drop (Z.to_nat lo) s)).
Proof.
  intros H1 H2. unfold slice.
  replace (0 <=? lo) with true by (symmetry; apply Z.leb_le; lia).
  replace (lo <=? hi) with true by (symmetry; apply Z.leb_le; lia).
  replace (hi <=? len s) with true by (symmetry; apply Z.leb_le; lia).
  reflexivity.
Qed.

Lemma slice_out {A : Type} (s : list A) (lo hi : Z) :
  hi < lo -> slice s lo hi = Panic.
Proof.
  intros H. unfold slice.
  replace (lo <=? hi) with false by (symmetry; apply Z.leb_gt; lia).
  now rewrite andb_false_r.
Qed.

Lemma slice_prefix {A : Type} (s : list A) (hi : Z) :
  0 <= hi <= len s -> slice s 0 hi = Ret (take (Z.to_nat hi) s).
Proof.
  intros H. rewrite slice_ok by lia. now rewrite Z.sub_0_r.
Qed.

(** ** Padding codec *)

Lemma TrimRight_zeros (n : nat) (c : Z) : TrimRight (replicate n c) c = [].
Proof.
  induction n as [|n IH]; simpl; trivial.
  rewrite IH. now rewrite Z.eqb_refl.
Qed.

Lemma TrimRight_keep (s : list Z) (x c : Z) :
  x <> c -> TrimRight (s ++ [x]) c = s ++ [x].
Proof.
  intros Hx. induction s as [|y s IH]; simpl.
  - apply Z.eqb_neq in Hx. now rewrite Hx.
  - rewrite IH. destruct s; reflexivity.
Qed.

Lemma TrimRight_marker (s : list Z) (x c : Z) (n : nat) :
  x <> c -> TrimRight (s ++ x :: replicate n c) c = s ++ [x].
Proof.
  intros Hx. induction s as [|y s IH]; simpl.
  - rewrite TrimRight_zeros. apply Z.eqb_neq in Hx. now rewrite Hx.
  - rewrite IH. destruct s; reflexivity.
Qed.

Lemma removePadding_trimmed (padded s : list Z) (x : Z) :
  TrimRight padded 0 = s ++ [x] ->
  removePadding padded =
    if x =? 0x80 then Ret (s, None) else Ret ([], Some ErrInvalidPadding).
Proof.
  intros Htrim. unfold removePadding. rewrite Htrim.
  assert (Hlen : len (s ++ [x]) - 1 = len s).
  { rewrite len_app. unfold len. simpl. lia. }
  rewrite Hlen.
  rewrite (index_ok _ _ x).
  - simpl. destruct (x =? 128); simpl; trivial.
    rewrite slice_prefix.
    + simpl. unfold len. rewrite Nat2Z.id.
      now rewrite take_app_length.
    + rewrite len_app. pose proof (len_nonneg s). pose proof (len_nonneg [x]). lia.
  - apply len_nonneg.
  - unfold len. rewrite Nat2Z.id. now rewrite list_lookup_middle.
Qed.

(** When the stripped input is not empty and does not end in the marker,
    the error is the invalid-padding error. *)
Lemma removePadding_no_marker (padded s : list Z) (x : Z) :
  TrimRight padded 0 = s ++ [x] -> x <> 0x80 ->
  removePadding padded = Ret ([], Some ErrInvalidPadding).
Proof.
  intros Htrim Hx. rewrite (removePadding_trimmed _ _ _ Htrim).
  apply Z.eqb_neq in Hx. now rewrite Hx.
Qed.

Lemma addPadding_draw (b : list Z) (n : Z) :
  1 <= n <= 254 ->
  addPadding (inl n) b =
    Ret (b ++ 0x80 :: replicate (Z.to_nat (n - 1)) 0, None).
Proof.
  intros Hn. unfold addPadding, to_byte, make.
  rewrite Z.mod_small by lia.
  replace (Z.to_nat n) with (S (Z.to_nat (n - 1))) by lia.
  reflexivity.
Qed.

(** C2: at a draw of zero [addPadding] does not return: the store of the
    marker byte into the empty padding slice is out of range, and the call
    panics instead of handing back the input unchanged. *)
Theorem addPadding_zero_draw_panics (unpadded : list Z) :
  addPadding (inl 0) unpadded = Panic.
Proof. reflexivity. Qed.

(** C3: on an input that is empty once its trailing zero bytes are
    stripped (the empty input, or zero bytes only) [removePadding] does not
    return the invalid-padding error: reading the last byte of the empty
    slice panics. *)
Theorem removePadding_all_zero_panics (n : nat) :
  removePadding (replicate n 0) = Panic.
Proof.
  unfold removePadding. rewrite TrimRight_zeros. reflexivity.
Qed.

(** C4: padding round trip.  For a draw [n] in 1..254 [addPadding] appends
    the marker 0x80 and [n - 1] zero bytes to [b], and [removePadding] gives
    back exactly [b] from that, whatever bytes [b] ends in. *)
Theorem padding_round_trip (b : list Z) (n : Z) :
  1 <= n <= 254 ->
  addPadding (inl n) b =
    Ret (b ++ 0x80 :: replicate (Z.to_nat (n - 1)) 0, None) /\
  removePadding (b ++ 0x80 :: replicate (Z.to_nat (n - 1)) 0) = Ret (b, None).
Proof.
  intros Hn. split.
  - now apply addPadding_draw.
  - rewrite (removePadding_trimmed _ b 0x80); trivial.
    apply TrimRight_marker. lia.
Qed.

(** The round trip at a draw of 3, on a message that ends in 0x80 0x00. *)
Lemma padding_round_trip_witness :
  1 <= 3 <= 254 /\
  addPadding (inl 3) [7; 0; 0x80; 0] = Ret ([7; 0; 0x80; 0; 0x80; 0; 0], None) /\
  removePadding [7; 0; 0x80; 0; 0x80; 0; 0] = Ret ([7; 0; 0x80; 0], None).
Proof.
  split; [lia |]. apply (padding_round_trip [7; 0; 0x80; 0] 3). lia.
Defined.

(** ** Text unescape codec *)

Lemma finished_emit (n : nat) (acc : list Z) (b : Z) (r : list Z * bool) :
  finished n (acc ++ [b]) r = finished n acc (emit b r).
Proof.
  unfold finished, emit. simpl. now rewrite <- !app_assoc.
Qed.

Lemma len_buffer (n : nat) (acc : list Z) :
  (length acc <= n)%nat -> len (buffer n acc) = Z.of_nat n.
Proof.
  intros H. unfold len, buffer. rewrite length_app, length_replicate. lia.
Qed.

Lemma store_buffer (n : nat) (acc : list Z) (b : Z) :
  (length acc < n)%nat ->
  store (buffer n acc) (len acc) b = Ret (buffer n (acc ++ [b])).
Proof.
  intros H. rewrite store_ok.
  - f_equal. unfold buffer, len. rewrite Nat2Z.id.
    rewrite length_app. simpl.
    replace (n - length acc)%nat with (S (n - (length acc + 1)))%nat by lia.
    simpl. rewrite <- app_assoc. simpl.
    replace (length acc) with (length acc + 0)%nat at 1 by lia.
    now rewrite insert_app_r.
  - rewrite len_buffer by lia. unfold len. lia.
Qed.

Lemma slice_buffer (n : nat) (acc : list Z) :
  slice (buffer n acc) 0 (len acc) = Ret acc.
Proof.
  rewrite slice_prefix.
  - unfold len, buffer. rewrite Nat2Z.id. now rewrite take_app_length.
  - unfold buffer. rewrite len_app. pose proof (len_nonneg acc).
    pose proof (len_nonneg (replicate (n - length acc) 0)). lia.
Qed.

Lemma index_app_r (pre rest : list Z) (k : nat) (x : Z) :
  rest !! k = Some x -> index (pre ++ rest) (len pre + Z.of_nat k) = Ret x.
Proof.
  intros Hx. apply index_ok.
  - pose proof (len_nonneg pre). lia.
  - unfold len. replace (Z.to_nat (Z.of_nat (length pre) + Z.of_nat k))
      with (length pre + k)%nat by lia.
    rewrite lookup_app_r by lia. rewrite <- Hx. f_equal. lia.
Qed.

Lemma index_head (pre rest : list Z) (x : Z) :
  index (pre ++ x :: rest) (len pre) = Ret x.
Proof.
  replace (len pre) with (len pre + Z.of_nat 0) by (simpl; lia).
  now apply index_app_r.
Qed.

Lemma unpackTXT_loop_end (fuel : nat) (txt buf : list Z) (i j : Z) :
  len txt <= j ->
  unpackTXT_loop fuel txt buf i j = (out ← slice buf 0 i; Ret (out, None)).
Proof.
  intros H. destruct fuel; simpl;
    replace (j <? len txt) with false by (symmetry; apply Z.ltb_ge; lia);
    reflexivity.
Qed.

Lemma ltb_len_app (pre rest : list Z) (k : Z) :
  0 <= k < len rest -> (len pre + k <? len (pre ++ rest)) = true.
Proof. intros H. apply Z.ltb_lt. rewrite len_app. lia. Qed.

Lemma loop_advance (f : nat) (pre tok rest acc : list Z) (b : Z) :
  (forall pre rest acc,
     (length rest <= f)%nat -> (length acc <= length pre)%nat ->
     unpackTXT_loop f (pre ++ rest) (buffer (length (pre ++ rest)) acc)
                    (len acc) (len pre)
     = Ret (finished (length (pre ++ rest)) acc (unescape rest))) ->
  (length rest <= f)%nat -> (length acc < length pre + length tok)%nat ->
  (unpackedTXT ← store (buffer (length (pre ++ tok ++ rest)) acc) (len acc) b;
   unpackTXT_loop f (pre ++ tok ++ rest) unpackedTXT
                  (len acc + 1) (len pre + len tok))
  = Ret (finished (length (pre ++ tok ++ rest)) acc (emit b (unescape rest))).
Proof.
  intros IH Hf Hacc.
  rewrite store_buffer by (rewrite !length_app; lia).
  cbn [mbind run_bind bind].
  rewrite <- finished_emit.
  replace (len acc + 1) with (len (acc ++ [b])) by (rewrite len_app; reflexivity).
  rewrite <- len_app. rewrite app_assoc.
  apply IH; trivial.
  rewrite !length_app. simpl. lia.
Qed.

Lemma IsDigit_range (d : Z) : IsDigit d = true <-> 48 <= d <= 57.
Proof.
  unfold IsDigit. rewrite andb_true_iff, !Z.leb_le. tauto.
Qed.

Lemma Atoi_three_digits (d1 d2 d3 : Z) :
  IsDigit d1 = true -> IsDigit d2 = true -> IsDigit d3 = true ->
  Atoi [d1; d2; d3] = (decimal3 d1 d2 d3, None).
Proof.
  intros H1 H2 H3. unfold Atoi.
  pose proof (proj1 (IsDigit_range _) H1).
  pose proof (proj1 (IsDigit_range _) H2).
  pose proof (proj1 (IsDigit_range _) H3).
  replace (d1 =? 43) with false by (symmetry; apply Z.eqb_neq; lia).
  replace (d1 =? 45) with false by (symmetry; apply Z.eqb_neq; lia).
  cbn [digits_val]. rewrite H1, H2, H3.
  assert (Hv : 10 * (10 * (10 * 0 + (d1 - 48)) + (d2 - 48)) + (d3 - 48)
               = decimal3 d1 d2 d3) by (unfold decimal3; lia).
  rewrite Hv.
  assert (0 <= decimal3 d1 d2 d3 <= 999) by (unfold decimal3; lia).
  replace (decimal3 d1 d2 d3 <? - 2 ^ 63) with false
    by (symmetry; apply Z.ltb_ge; lia).
  replace (2 ^ 63 - 1 <? decimal3 d1 d2 d3) with false
    by (symmetry; apply Z.ltb_ge; lia).
  reflexivity.
Qed.

Lemma len_cons {A : Type} (x : A) (s : list A) : len (x :: s) = 1 + len s.
Proof. unfold len. simpl length. lia. Qed.

Lemma index_app_off (pre rest : list Z) (k x : Z) :
  0 <= k -> rest !! Z.to_nat k = Some x ->
  index (pre ++ rest) (len pre + k) = Ret x.
Proof.
  intros Hk Hx. replace k with (Z.of_nat (Z.to_nat k)) at 1 by lia.
  now apply index_app_r.
Qed.

Lemma slice_three (pre rest : list Z) (c d1 d2 d3 : Z) :
  slice (pre ++ c :: d1 :: d2 :: d3 :: rest) (len pre + 1) (len pre + 1 + 3)
  = Ret [d1; d2; d3].
Proof.
  pose proof (len_nonneg pre). rewrite slice_ok.
  - f_equal. replace (Z.to_nat (len pre + 1)) with (length pre + 1)%nat
      by (unfold len; lia).
    rewrite drop_app_add.
    replace (Z.to_nat (len pre + 1 + 3 - (len pre + 1))) with 3%nat by lia.
    reflexivity.
  - lia.
  - rewrite len_app, !len_cons. pose proof (len_nonneg rest). lia.
Qed.

Lemma loop_advance_at (f : nat) (txt pre tok rest acc : list Z) (b j : Z) :
  (forall pre rest acc,
     (length rest <= f)%nat -> (length acc <= length pre)%nat ->
     unpackTXT_loop f (pre ++ rest) (buffer (length (pre ++ rest)) acc)
                    (len acc) (len pre)
     = Ret (finished (length (pre ++ rest)) acc (unescape rest))) ->
  txt = pre ++ tok ++ rest -> j = len pre + len tok ->
  (length rest <= f)%nat -> (length acc < length pre + length tok)%nat ->
  (unpackedTXT ← store (buffer (length txt) acc) (len acc) b;
   unpackTXT_loop f txt unpackedTXT (len acc + 1) j)
  = Ret (finished (length txt) acc (emit b (unescape rest))).
Proof.
  intros IH -> ->. now apply loop_advance.
Qed.

Ltac loop_side :=
  first [ reflexivity | assumption
        | rewrite ?len_cons; unfold len; simpl in *; lia ].

Lemma unpackTXT_loop_unescape (fuel : nat) :
  forall pre rest acc,
    (length rest <= fuel)%nat -> (length acc <= length pre)%nat ->
    unpackTXT_loop fuel (pre ++ rest) (buffer (length (pre ++ rest)) acc)
                   (len acc) (len pre)
    = Ret (finished (length (pre ++ rest)) acc (unescape rest)).
Proof.
  induction fuel as [|f IH]; intros pre rest acc Hfuel Hacc.
  - destruct rest as [|c rest]; [|simpl in Hfuel; lia].
    rewrite unpackTXT_loop_end by (rewrite app_nil_r; lia).
    rewrite slice_buffer. unfold finished. simpl. now rewrite app_nil_r.
  - destruct rest as [|c rest].
    { rewrite unpackTXT_loop_end by (rewrite app_nil_r; lia).
      rewrite slice_buffer. unfold finished. simpl. now rewrite app_nil_r. }
    cbn [unpackTXT_loop].
    replace (len pre <? len (pre ++ c :: rest)) with true.
    2:{ symmetry. replace (len pre) with (len pre + 0) by lia.
        apply ltb_len_app. unfold len. simpl. lia. }
    cbn [negb]. rewrite index_head. cbn [mbind run_bind bind].
    cbn [length] in Hfuel.
    cbn [unescape]. destruct (c =? 92) eqn:Hc.
    2:{ (* a byte that stands for itself *)
        apply (loop_advance_at f _ pre [c] rest); loop_side. }
    destruct rest as [|e rest1].
    { (* the backslash ends the input: break *)
      replace (len pre + 1 =? len (pre ++ [c])) with true
        by (symmetry; apply Z.eqb_eq; rewrite len_app; reflexivity).
      rewrite slice_buffer. unfold finished. simpl. now rewrite app_nil_r. }
    replace (len pre + 1 =? len (pre ++ c :: e :: rest1)) with false.
    2:{ symmetry. apply Z.eqb_neq. rewrite len_app, !len_cons.
        pose proof (len_nonneg rest1). lia. }
    (* the single-character escape, whenever the digit test fails *)
    assert (Hsingle :
      (c0 ← index (pre ++ c :: e :: rest1) (len pre + 1);
       if c0 =? 110
       then unpackedTXT ← store (buffer (length (pre ++ c :: e :: rest1)) acc)
                                (len acc) 10;
            unpackTXT_loop f (pre ++ c :: e :: rest1) unpackedTXT
                           (len acc + 1) (len pre + 1 + 1)
       else if c0 =? 116
       then unpackedTXT ← store (buffer (length (pre ++ c :: e :: rest1)) acc)
                                (len acc) 9;
            unpackTXT_loop f (pre ++ c :: e :: rest1) unpackedTXT
                           (len acc + 1) (len pre + 1 + 1)
       else if c0 =? 114
       then unpackedTXT ← store (buffer (length (pre ++ c :: e :: rest1)) acc)
                                (len acc) 13;
            unpackTXT_loop f (pre ++ c :: e :: rest1) unpackedTXT
                           (len acc + 1) (len pre + 1 + 1)
       else Ret (buffer (length (pre ++ c :: e :: rest1)) acc,
                 Some ErrInvalidEscape))
      = Ret (finished (length (pre ++ c :: e :: rest1)) acc
               match escapeChar e with
               | Some b => emit b (unescape rest1)
               | None => ([], false)
               end)).
    { rewrite (index_app_off _ _ 1 e) by (trivial; lia).
      cbn [mbind run_bind bind]. unfold escapeChar.
      cbn [length] in Hfuel.
      destruct (e =? 110);
        [apply (loop_advance_at f _ pre [c; e] rest1); loop_side |].
      destruct (e =? 116);
        [apply (loop_advance_at f _ pre [c; e] rest1); loop_side |].
      destruct (e =? 114);
        [apply (loop_advance_at f _ pre [c; e] rest1); loop_side |].
      unfold finished. simpl. now rewrite app_nil_r. }
    match type of Hsingle with ?lhs = _ => set (single := lhs) in * end.
    unfold threeDigits.
    destruct rest1 as [|d2 [|d3 rest3]].
    + replace (len pre + 1 + 2 <? len (pre ++ [c; e])) with false
        by (symmetry; apply Z.ltb_ge; rewrite len_app; unfold len; simpl; lia).
      cbn [mbind run_bind bind]. apply Hsingle.
    + replace (len pre + 1 + 2 <? len (pre ++ [c; e; d2])) with false
        by (symmetry; apply Z.ltb_ge; rewrite len_app; unfold len; simpl; lia).
      cbn [mbind run_bind bind]. apply Hsingle.
    + replace (len pre + 1 + 2 <? len (pre ++ c :: e :: d2 :: d3 :: rest3))
        with true
        by (symmetry; apply Z.ltb_lt; rewrite len_app, !len_cons;
            pose proof (len_nonneg rest3); lia).
      rewrite (index_app_off _ _ 1 e) by (trivial; lia).
      cbn [mbind run_bind bind].
      destruct (IsDigit e) eqn:He;
        [|cbn [andb mbind run_bind bind]; apply Hsingle].
      replace (len pre + 1 + 1) with (len pre + 2) by lia.
      rewrite (index_app_off _ _ 2 d2) by (trivial; lia).
      cbn [mbind run_bind bind].
      destruct (IsDigit d2) eqn:Hd2;
        [|cbn [andb mbind run_bind bind]; apply Hsingle].
      replace (len pre + 1 + 2) with (len pre + 3) by lia.
      rewrite (index_app_off _ _ 3 d3) by (trivial; lia).
      cbn [mbind run_bind bind].
      destruct (IsDigit d3) eqn:Hd3;
        [|cbn [andb mbind run_bind bind]; apply Hsingle].
      cbn [andb]. rewrite slice_three. cbn [mbind run_bind bind].
      rewrite Atoi_three_digits by trivial.
      cbn [length] in Hfuel.
      apply (loop_advance_at f _ pre [c; e; d2; d3] rest3); loop_side.
Qed.

Lemma unpackTXT_returned (txt : list Z) :
  unpackTXT txt = Ret (returned (length txt) (unescape txt)).
Proof.
  unfold unpackTXT.
  assert (Hbuf : make (len txt) = buffer (length txt) []).
  { unfold make, buffer, len. rewrite Nat2Z.id. simpl. now rewrite Nat.sub_0_r. }
  rewrite Hbuf.
  exact (unpackTXT_loop_unescape (length txt) [] txt [] (le_n _) (le_n _)).
Qed.

Lemma unescape_length_bounded (n : nat) :
  forall txt, (length txt <= n)%nat ->
              (length (fst (unescape txt)) <= length txt)%nat.
Proof.
  induction n as [|n IH]; intros txt Hn.
  - destruct txt; simpl in *; lia.
  - destruct txt as [|c rest]; [simpl; lia|].
    simpl in Hn. cbn [unescape].
    destruct (c =? 92).
    2:{ simpl. specialize (IH rest). lia. }
    destruct rest as [|e rest1]; [simpl; lia|].
    simpl in Hn.
    assert (Hsingle :
      (length (fst match escapeChar e with
                   | Some b => emit b (unescape rest1)
                   | None => ([], false)
                   end) <= length (c :: e :: rest1))%nat).
    { destruct (escapeChar e); simpl; [|lia]. specialize (IH rest1). lia. }
    destruct rest1 as [|d2 [|d3 rest3]]; trivial.
    destruct (IsDigit e && IsDigit d2 && IsDigit d3); trivial.
    simpl. simpl in Hn. specialize (IH rest3). lia.
Qed.

Lemma unescape_length (txt : list Z) :
  (length (fst (unescape txt)) <= length txt)%nat.
Proof. now apply (unescape_length_bounded (length txt)). Qed.

Lemma returned_length (txt : list Z) :
  (length (fst (returned (length txt) (unescape txt))) <= length txt)%nat.
Proof.
  pose proof (unescape_length txt). unfold returned.
  destruct (snd (unescape txt)); simpl; trivial.
  rewrite length_app, length_replicate. lia.
Qed.

(** The clauses of the decoding, one by one. *)
Lemma unescape_ddd (d1 d2 d3 : Z) (rest : list Z) :
  IsDigit d1 = true -> IsDigit d2 = true -> IsDigit d3 = true ->
  unescape (0x5C :: d1 :: d2 :: d3 :: rest)
  = emit (decimal3 d1 d2 d3 mod 256) (unescape rest).
Proof. intros H1 H2 H3. cbn [unescape]. simpl (_ =? _). now rewrite H1, H2, H3. Qed.

Lemma unescape_single (e b : Z) (rest : list Z) :
  IsDigit e = false -> escapeChar e = Some b ->
  unescape (0x5C :: e :: rest) = emit b (unescape rest).
Proof.
  intros He Hb. cbn [unescape]. simpl (_ =? _). rewrite Hb, He.
  destruct rest as [|d2 [|d3 rest3]]; reflexivity.
Qed.

Lemma unescape_other (e : Z) (rest : list Z) :
  escapeChar e = None ->
  IsDigit e && forallb IsDigit (take 2 rest) && (2 <=? len rest) = false ->
  unescape (0x5C :: e :: rest) = ([], false).
Proof.
  intros He Hd. cbn [unescape]. simpl (_ =? _). rewrite He.
  destruct rest as [|d2 [|d3 rest3]]; trivial.
  simpl in Hd. rewrite andb_true_r in Hd.
  replace (2 <=? len (d2 :: d3 :: rest3)) with true in Hd.
  - rewrite andb_true_r, andb_assoc in Hd. now rewrite Hd.
  - symmetry. apply Z.leb_le. rewrite !len_cons.
    pose proof (len_nonneg rest3). lia.
Qed.

Lemma unescape_lone_backslash : unescape [0x5C] = ([], true).
Proof. reflexivity. Qed.

Lemma unescape_plain (c : Z) (rest : list Z) :
  c <> 0x5C -> unescape (c :: rest) = emit c (unescape rest).
Proof.
  intros Hc. cbn [unescape]. apply Z.eqb_neq in Hc. now rewrite Hc.
Qed.

(** The clauses again, on [unpackTXT] itself. *)
Lemma returned_ok (n : nat) (r : list Z * bool) (out : list Z) :
  returned n r = (out, None) -> r = (out, true).
Proof.
  unfold returned. destruct r as [o [|]]; simpl; [|discriminate].
  now intros [= ->].
Qed.

Lemma unpackTXT_token (tok rest out : list Z) (b : Z) :
  unescape (tok ++ rest) = emit b (unescape rest) ->
  unpackTXT rest = Ret (out, None) ->
  unpackTXT (tok ++ rest) = Ret (b :: out, None).
Proof.
  rewrite !unpackTXT_returned. intros Htok [= Hrest].
  apply returned_ok in Hrest. rewrite Htok, Hrest. reflexivity.
Qed.

Lemma unpackTXT_ddd (d1 d2 d3 : Z) (rest out : list Z) :
  IsDigit d1 = true -> IsDigit d2 = true -> IsDigit d3 = true ->
  unpackTXT rest = Ret (out, None) ->
  unpackTXT (0x5C :: d1 :: d2 :: d3 :: rest)
  = Ret (decimal3 d1 d2 d3 mod 256 :: out, None).
Proof.
  intros H1 H2 H3. apply (unpackTXT_token [0x5C; d1; d2; d3]).
  now apply unescape_ddd.
Qed.

Lemma escapeChar_not_digit (e b : Z) :
  escapeChar e = Some b -> IsDigit e = false.
Proof.
  unfold escapeChar, IsDigit.
  destruct (Z.eqb_spec e 110) as [->|]; [reflexivity|].
  destruct (Z.eqb_spec e 116) as [->|]; [reflexivity|].
  destruct (Z.eqb_spec e 114) as [->|]; [reflexivity|discriminate].
Qed.

Lemma unpackTXT_single (e b : Z) (rest out : list Z) :
  escapeChar e = Some b ->
  unpackTXT rest = Ret (out, None) ->
  unpackTXT (0x5C :: e :: rest) = Ret (b :: out, None).
Proof.
  intros He. apply (unpackTXT_token [0x5C; e]).
  apply unescape_single; trivial. now apply (escapeChar_not_digit e b).
Qed.

Lemma unpackTXT_other (e : Z) (rest : list Z) :
  escapeChar e = None ->
  IsDigit e && forallb IsDigit (take 2 rest) && (2 <=? len rest) = false ->
  unpackTXT (0x5C :: e :: rest)
  = Ret (replicate (length (0x5C :: e :: rest)) 0, Some ErrInvalidEscape).
Proof.
  intros He Hd. rewrite unpackTXT_returned, unescape_other by trivial.
  reflexivity.
Qed.

Lemma unpackTXT_plain (c : Z) (rest out : list Z) :
  c <> 0x5C ->
  unpackTXT rest = Ret (out, None) ->
  unpackTXT (c :: rest) = Ret (c :: out, None).
Proof.
  intros Hc. apply (unpackTXT_token [c]). now apply unescape_plain.
Qed.

Lemma unpackTXT_trailing_backslash (pre : list Z) :
  Forall (fun c => c <> 0x5C) pre ->
  unpackTXT (pre ++ [0x5C]) = Ret (pre, None).
Proof.
  induction 1 as [|c pre Hc _ IH].
  - reflexivity.
  - now apply (unpackTXT_plain c (pre ++ [0x5C]) pre).
Qed.

Example unpackTXT_test :
  unpackTXT [0x5C; 49; 49; 54; 0x5C; 49; 48; 49; 0x5C; 49; 49; 53;
             0x5C; 49; 49; 54]
  = Ret ([116; 101; 115; 116], None).
Proof. reflexivity. Qed.

Example unpackTXT_ntr :
  unpackTXT [0x5C; 110; 0x5C; 116; 0x5C; 114] = Ret ([10; 9; 13], None).
Proof. reflexivity. Qed.

Example unpackTXT_x :
  unpackTXT [0x5C; 120] = Ret ([0; 0], Some ErrInvalidEscape).
Proof. reflexivity. Qed.

(** C8, counterexample: the three digits 999 do not decode to a byte of
    that value; the byte is 231, which is 999 reduced modulo 256. *)
Lemma unpackTXT_ddd_999 :
  decimal3 57 57 57 = 999 /\
  unpackTXT [0x5C; 57; 57; 57] = Ret ([231], None) /\
  unpackTXT [0x5C; 57; 57; 57] <> Ret ([decimal3 57 57 57], None).
Proof.
  split; [reflexivity|]. split; [reflexivity|].
  intros H. vm_compute in H. discriminate H.
Qed.

(** C8, amended: for every input [unpackTXT] returns, and what it returns
    is the token-by-token decoding [unescape] of the input: a backslash and
    three ASCII digits give the byte of their decimal value reduced modulo
    256 (the value itself up to 255), a backslash and n, t or r give
    newline, tab and carriage return, a backslash and any other character
    makes the call return the escape error (with the whole buffer), a lone
    backslash at the end of the input ends the output without an error, and
    every other byte is copied.  What is returned is never longer than the
    input. *)
Theorem unpackTXT_unescape (txt : list Z) :
  unpackTXT txt = Ret (returned (length txt) (unescape txt)) /\
  (length (fst (returned (length txt) (unescape txt))) <= length txt)%nat.
Proof.
  split; [apply unpackTXT_returned | apply returned_length].
Qed.

(** ** Certificate resolver *)

Lemma ReadFull_inl (r bs : list Z) (size : Z) :
  ReadFull r size = inl bs -> size <= len r /\ bs = take (Z.to_nat size) r.
Proof.
  unfold ReadFull. destruct (len r =? 0); [discriminate|].
  destruct (Z.ltb_spec (len r) size) as [|Hsize]; [discriminate|].
  intros [= E]. split; [exact Hsize | now symmetry].
Qed.

Lemma Read_signedBincert_len (r : list Z) (c : signedBincert) :
  Read_signedBincert r = inl c -> 124 <= len r.
Proof.
  unfold Read_signedBincert. destruct (ReadFull r 124) eqn:E; [|discriminate].
  intros _. now apply ReadFull_inl in E.
Qed.

(** A prefix of five bytes never equals the four bytes of the magic: the
    test of the loop cannot succeed. *)
Lemma magic_test_false (txt0 : list Z) :
  5 <= len txt0 ->
  slice txt0 0 5 = Ret (take 5 txt0) /\
  bytes_eqb (take 5 txt0) certificateMagic = false.
Proof.
  intros H. split.
  - rewrite slice_prefix by lia. reflexivity.
  - unfold bytes_eqb. apply bool_decide_eq_false. intros E.
    apply (f_equal length) in E. rewrite length_take in E.
    unfold certificateMagic in E. cbn [length] in E. unfold len in H. lia.
Qed.

Lemma unpackTXT_ok_length (txt out : list Z) (err : option error) :
  unpackTXT txt = Ret (out, err) -> (length out <= length txt)%nat.
Proof.
  rewrite unpackTXT_returned. intros [= E].
  pose proof (returned_length txt) as H. rewrite E in H. exact H.
Qed.

Lemma GetValidCert_loop_step (answer : RR) (c : signedBincert)
    (answers : list RR) (bincert : option signedBincert) :
  parseAnswer answer = Some c ->
  GetValidCert_loop (answer :: answers) bincert
  = GetValidCert_loop answers (supported c).
Proof.
  intros Hparse. unfold parseAnswer in Hparse.
  destruct answer as [[|txt0 more]|]; try discriminate.
  destruct (unpackTXT txt0) as [[u [e|]]| |] eqn:Eunpack; try discriminate.
  destruct (Read_signedBincert u) as [parsed|] eqn:Eread; [|discriminate].
  injection Hparse as ->.
  assert (Hlen : 5 <= len txt0).
  { apply Read_signedBincert_len in Eread.
    apply unpackTXT_ok_length in Eunpack. unfold len in *. lia. }
  destruct (magic_test_false txt0 Hlen) as [Hslice Hmagic].
  cbn [GetValidCert_loop].
  rewrite (index_ok _ 0 txt0) by (try reflexivity; lia).
  cbn [mbind run_bind bind]. rewrite Hslice. cbn [mbind run_bind bind].
  rewrite Hmagic, Eunpack. cbn [mbind run_bind bind]. rewrite Eread.
  unfold supported. destruct (VersionMajor c =? 1); reflexivity.
Qed.

(** A scan over answers that all decode ends with what the last answer
    alone leaves: the certificate before it is never kept. *)
Lemma GetValidCert_loop_last (answers : list RR) (certs : list signedBincert) :
  Forall2 (fun a c => parseAnswer a = Some c) answers certs ->
  forall bincert,
    GetValidCert_loop answers bincert
    = Ret (inl (match last certs with
                | Some c => supported c
                | None => bincert
                end)).
Proof.
  induction 1 as [|a c answers certs Hparse _ IH]; intros bincert.
  - reflexivity.
  - rewrite (GetValidCert_loop_step a c) by trivial.
    rewrite IH, last_cons. destruct (last certs); reflexivity.
Qed.


Example parseAnswer_certText :
  parseAnswer (TXT [certText certificateMagic 1 75])
  = Some (certParsed certificateMagic 1 75).
Proof. vm_compute. reflexivity. Qed.

Example GetValidCert_certText :
  GetValidCert acceptAll (inl [TXT [certText certificateMagic 1 75]])
               testKey testNow
  = Ret (certFields 75, None).
Proof. vm_compute. reflexivity. Qed.

Section Resolver.

Variable ed25519_Verify : list Z -> list Z -> list Z -> run bool.

(** The part of [GetValidCert] after a scan that kept [bincert]. *)
Lemma GetValidCert_scanned (answers : list RR) (bincert : signedBincert)
    (providerKey : list Z) (nowSigned : Z) :
  answers <> [] ->
  GetValidCert_loop answers None = Ret (inl (Some bincert)) ->
  GetValidCert ed25519_Verify (inl answers) providerKey nowSigned
  = (valid ← ed25519_Verify providerKey (SignedData bincert)
                            (Signature bincert);
     if negb (valid : bool) then Ret (zeroFields, Some ErrInvalidSignature)
     else
       match Read_SignedBincertFields (SignedData bincert) with
       | inr err => Ret (zeroFields, Some err)
       | inl bincertFields =>
           if 0 <=? nowSigned then
             if to_uint64 nowSigned <? to_uint64 (TSBegin bincertFields) then
               Ret (zeroFields, Some ErrNotYetValid)
             else if to_uint64 (TSEnd bincertFields) <? to_uint64 nowSigned then
               Ret (zeroFields, Some ErrExpired)
             else Ret (bincertFields, None)
           else Ret (zeroFields, Some ErrTimeTraveler)
       end).
Proof.
  intros Hne Hscan. unfold GetValidCert.
  replace (len answers =? 0) with false.
  - rewrite Hscan. reflexivity.
  - symmetry. apply Z.eqb_neq. destruct answers; [congruence|].
    rewrite len_cons. pose proof (len_nonneg answers). lia.
Qed.

(** C1: when a major-version-1 certificate is followed by a
    major-version-2 certificate the scan forgets the first on reading the
    second, and the call fails with the no-supported-certificate error
    although the answer set holds one; in the other order the call does what
    it does for the version-1 certificate alone. *)
Theorem GetValidCert_v1_then_v2 (a1 a2 : RR) (c1 c2 : signedBincert)
    (providerKey : list Z) (nowSigned : Z) :
  parseAnswer a1 = Some c1 -> VersionMajor c1 = 1 ->
  parseAnswer a2 = Some c2 -> VersionMajor c2 = 2 ->
  GetValidCert ed25519_Verify (inl [a1; a2]) providerKey nowSigned
  = Ret (zeroFields, Some ErrNoSupportedCert) /\
  GetValidCert ed25519_Verify (inl [a2; a1]) providerKey nowSigned
  = GetValidCert ed25519_Verify (inl [a1]) providerKey nowSigned.
Proof.
  intros H1 Hv1 H2 Hv2.
  assert (S1 : supported c1 = Some c1) by (unfold supported; now rewrite Hv1).
  assert (S2 : supported c2 = None) by (unfold supported; now rewrite Hv2).
  split.
  - unfold GetValidCert. simpl (len _ =? 0).
    rewrite (GetValidCert_loop_step a1 c1), (GetValidCert_loop_step a2 c2)
      by trivial.
    rewrite S2. reflexivity.
  - rewrite !(GetValidCert_scanned _ c1); trivial; try discriminate.
    + rewrite (GetValidCert_loop_step a1 c1) by trivial. now rewrite S1.
    + rewrite (GetValidCert_loop_step a2 c2), (GetValidCert_loop_step a1 c1)
        by trivial.
      now rewrite S1.
Qed.

End Resolver.

(** The two orders on the test vectors. *)
Lemma GetValidCert_v1_then_v2_witness :
  GetValidCert acceptAll
    (inl [TXT [certText certificateMagic 1 75];
          TXT [certText certificateMagic 2 76]]) testKey testNow
  = Ret (zeroFields, Some ErrNoSupportedCert) /\
  GetValidCert acceptAll
    (inl [TXT [certText certificateMagic 2 76];
          TXT [certText certificateMagic 1 75]]) testKey testNow
  = GetValidCert acceptAll (inl [TXT [certText certificateMagic 1 75]])
                 testKey testNow.
Proof.
  apply (GetValidCert_v1_then_v2 acceptAll _ _
           (certParsed certificateMagic 1 75)
           (certParsed certificateMagic 2 76));
    vm_compute; reflexivity.
Defined.

(** C5: the magic test of the loop compares five bytes of the text with
    the four bytes of ["DNSC"] and returns the error when they are equal,
    which they never are.  A record whose text starts with other bytes is
    not rejected: it is decoded, checked and returned like a certificate.
    A text that is ["DNSC"] and nothing more makes the slice of five bytes
    panic. *)
Theorem GetValidCert_wrong_magic_accepted (providerKey : list Z) :
  GetValidCert acceptAll (inl [TXT [certText [88; 88; 88; 88] 1 75]])
               providerKey testNow
  = Ret (certFields 75, None) /\
  GetValidCert acceptAll (inl [TXT [certificateMagic]]) providerKey testNow
  = Panic.
Proof. split; vm_compute; reflexivity. Qed.

Lemma to_uint64_small (x : Z) : 0 <= x < 2 ^ 64 -> to_uint64 x = x.
Proof. intros H. unfold to_uint64. now apply Z.mod_small. Qed.

Lemma Forall2_last {A B : Type} (P : A -> B -> Prop) (l : list A)
    (k : list B) (a : A) (b : B) :
  Forall2 P l k -> last l = Some a -> last k = Some b -> P a b.
Proof.
  induction 1 as [|x y l k Hxy Hlk IH]; [discriminate|].
  rewrite !last_cons. destruct Hlk as [|x' y' l k Hxy' Hlk].
  - simpl. now intros [= <-] [= <-].
  - rewrite !last_cons in IH. rewrite !last_cons.
    destruct (last l), (last k); intros E1 E2; apply IH; trivial.
Qed.

Section Validation.

Variable ed25519_Verify : list Z -> list Z -> list Z -> run bool.

(** C6: the validity window.  For a certificate the scan kept and whose
    signature verifies, with [f] the fields of its signed data: a negative
    clock is the time-traveler error whatever the window is, a time before
    the start is the not-yet-valid error, a time from the start to the end,
    both included, validates and returns [f], and a later time is the expiry
    error; so the end itself validates and the second after it has expired. *)
Theorem GetValidCert_validity_window (answers : list RR)
    (bincert : signedBincert) (f : SignedBincertFields)
    (providerKey : list Z) (nowSigned : Z) :
  answers <> [] ->
  GetValidCert_loop answers None = Ret (inl (Some bincert)) ->
  ed25519_Verify providerKey (SignedData bincert) (Signature bincert)
    = Ret true ->
  Read_SignedBincertFields (SignedData bincert) = inl f ->
  0 <= TSBegin f < 2 ^ 32 -> 0 <= TSEnd f < 2 ^ 32 ->
  - 2 ^ 63 <= nowSigned < 2 ^ 63 ->
  let result :=
    GetValidCert ed25519_Verify (inl answers) providerKey nowSigned in
  (nowSigned < 0 -> result = Ret (zeroFields, Some ErrTimeTraveler)) /\
  (0 <= nowSigned < TSBegin f ->
   result = Ret (zeroFields, Some ErrNotYetValid)) /\
  (TSBegin f <= nowSigned <= TSEnd f -> result = Ret (f, None)) /\
  (TSBegin f <= nowSigned -> TSEnd f < nowSigned ->
   result = Ret (zeroFields, Some ErrExpired)) /\
  (TSBegin f <= TSEnd f -> nowSigned = TSEnd f -> result = Ret (f, None)) /\
  (TSBegin f <= TSEnd f -> nowSigned = TSEnd f + 1 ->
   result = Ret (zeroFields, Some ErrExpired)).
Proof.
  intros Hne Hscan Hverify Hread Hbegin Hend Hnow result.
  assert (Hresult : result =
    if 0 <=? nowSigned then
      if to_uint64 nowSigned <? to_uint64 (TSBegin f) then
        Ret (zeroFields, Some ErrNotYetValid)
      else if to_uint64 (TSEnd f) <? to_uint64 nowSigned then
        Ret (zeroFields, Some ErrExpired)
      else Ret (f, None)
    else Ret (zeroFields, Some ErrTimeTraveler)).
  { unfold result. rewrite (GetValidCert_scanned _ _ bincert) by trivial.
    rewrite Hverify. cbn [mbind run_bind bind negb]. now rewrite Hread. }
  rewrite Hresult. clear Hresult result.
  rewrite (to_uint64_small (TSBegin f)), (to_uint64_small (TSEnd f)) by lia.
  assert (Hcases :
    (nowSigned < 0 ->
     (if 0 <=? nowSigned
      then if to_uint64 nowSigned <? TSBegin f
           then Ret (zeroFields, Some ErrNotYetValid)
           else if TSEnd f <? to_uint64 nowSigned
                then Ret (zeroFields, Some ErrExpired) else Ret (f, None)
      else Ret (zeroFields, Some ErrTimeTraveler))
     = Ret (zeroFields, Some ErrTimeTraveler)) /\
    (0 <= nowSigned ->
     (if 0 <=? nowSigned
      then if to_uint64 nowSigned <? TSBegin f
           then Ret (zeroFields, Some ErrNotYetValid)
           else if TSEnd f <? to_uint64 nowSigned
                then Ret (zeroFields, Some ErrExpired) else Ret (f, None)
      else Ret (zeroFields, Some ErrTimeTraveler))
     = if nowSigned <? TSBegin f then Ret (zeroFields, Some ErrNotYetValid)
       else if TSEnd f <? nowSigned then Ret (zeroFields, Some ErrExpired)
       else Ret (f, None))).
  { split; intros H.
    - destruct (Z.leb_spec 0 nowSigned); [lia | reflexivity].
    - rewrite to_uint64_small by lia.
      destruct (Z.leb_spec 0 nowSigned); [reflexivity | lia]. }
  destruct Hcases as [Hneg Hpos].
  repeat split.
  - exact Hneg.
  - intros H. rewrite Hpos by lia.
    destruct (Z.ltb_spec nowSigned (TSBegin f)); [reflexivity | lia].
  - intros H. rewrite Hpos by lia.
    destruct (Z.ltb_spec nowSigned (TSBegin f)); [lia|].
    destruct (Z.ltb_spec (TSEnd f) nowSigned); [lia | reflexivity].
  - intros H1 H2. rewrite Hpos by lia.
    destruct (Z.ltb_spec nowSigned (TSBegin f)); [lia|].
    destruct (Z.ltb_spec (TSEnd f) nowSigned); [reflexivity | lia].
  - intros H1 H2. rewrite Hpos by lia.
    destruct (Z.ltb_spec nowSigned (TSBegin f)); [lia|].
    destruct (Z.ltb_spec (TSEnd f) nowSigned); [lia | reflexivity].
  - intros H1 H2. rewrite Hpos by lia.
    destruct (Z.ltb_spec nowSigned (TSBegin f)); [lia|].
    destruct (Z.ltb_spec (TSEnd f) nowSigned); [reflexivity | lia].
Qed.


End Validation.

(** The window at its end and one second later, on the test vector. *)
Lemma GetValidCert_validity_window_witness :
  GetValidCert acceptAll (inl [TXT [certText certificateMagic 1 75]])
               testKey 0x7E000000
  = Ret (certFields 75, None) /\
  GetValidCert acceptAll (inl [TXT [certText certificateMagic 1 75]])
               testKey (0x7E000000 + 1)
  = Ret (zeroFields, Some ErrExpired).
Proof.
  split.
  - apply (GetValidCert_validity_window acceptAll
             [TXT [certText certificateMagic 1 75]]
             (certParsed certificateMagic 1 75) (certFields 75)
             testKey 0x7E000000);
      first [ discriminate | vm_compute; reflexivity | simpl; lia ].
  - apply (GetValidCert_validity_window acceptAll
             [TXT [certText certificateMagic 1 75]]
             (certParsed certificateMagic 1 75) (certFields 75)
             testKey (0x7E000000 + 1));
      first [ discriminate | vm_compute; reflexivity | simpl; lia ].
Defined.


Example GetValidCert_bad_signature :
  GetValidCert rejectAll (inl [TXT [certText certificateMagic 1 75]])
               testKey testNow
  = Ret (zeroFields, Some ErrInvalidSignature).
Proof. vm_compute. reflexivity. Qed.

Example GetValidCert_two_v1 :
  GetValidCert acceptAll
    (inl [TXT [certText certificateMagic 1 75];
          TXT [certText certificateMagic 1 76]]) testKey testNow
  = Ret (certFields 76, None).
Proof. vm_compute. reflexivity. Qed.

(** ** Encrypted exchange engine *)

Lemma dnsMaxSizeUDP_value : dnsMaxSizeUDP = 65508.
Proof. reflexivity. Qed.

Lemma received_app (d : list Z) :
  len d <= dnsMaxSizeUDP ->
  received d = d ++ replicate (Z.to_nat dnsMaxSizeUDP - length d) 0.
Proof.
  intros H. unfold received, copy, make.
  rewrite Z.min_l by lia.
  replace (Z.to_nat (len d)) with (length d) by (unfold len; lia).
  rewrite firstn_all. rewrite length_replicate.
  rewrite take_ge by (unfold len in H; lia).
  now rewrite drop_replicate.
Qed.

Lemma len_received (d : list Z) :
  len d <= dnsMaxSizeUDP -> len (received d) = dnsMaxSizeUDP.
Proof.
  intros H. rewrite received_app by trivial.
  rewrite len_app. unfold len at 2. rewrite length_replicate.
  pose proof dnsMaxSizeUDP_value. unfold len in *. lia.
Qed.

Lemma header_bytes (d : list Z) :
  len d <= dnsMaxSizeUDP ->
  slice (received d) 0 32 = Ret (take 32 (received d)) /\
  Read_dnsCryptResponseHeader (take 32 (received d))
  = inl {| ServerMagic := take 8 (received d);
           EchoedClientNonce := take 12 (drop 8 (take 32 (received d)));
           ServerNonce := take 12 (drop 20 (take 32 (received d))) |}.
Proof.
  intros H. pose proof (len_received d H) as Hlen.
  pose proof dnsMaxSizeUDP_value as HM. split.
  - rewrite slice_prefix by lia. reflexivity.
  - unfold Read_dnsCryptResponseHeader, ReadFull.
    assert (Hl : len (take 32 (received d)) = 32).
    { unfold len in *. rewrite length_take. lia. }
    rewrite Hl. simpl (32 =? 0). simpl (32 <? 32). cbv iota.
    unfold field. f_equal.
    replace (Z.to_nat 32) with 32%nat by reflexivity.
    rewrite take_idemp. f_equal.
    replace (Z.to_nat (8 - 0)) with 8%nat by reflexivity.
    replace (Z.to_nat 0) with 0%nat by reflexivity.
    rewrite drop_0, take_take. reflexivity.
Qed.

Lemma magic_has_no_zero (d : list Z) (k : nat) :
  (length d < 8)%nat -> take 8 (d ++ replicate k 0) <> resolverMagic.
Proof.
  intros Hd E.
  assert (Hin : Forall (fun b => b <> 0) (take 8 (d ++ replicate k 0))).
  { rewrite E. unfold resolverMagic. repeat constructor; discriminate. }
  rewrite take_app_ge in Hin by lia.
  apply Forall_app in Hin as [_ Hin].
  assert (Hl : (length (take (8 - length d) (replicate k 0%Z)) = 8 - length d)%nat).
  { apply (f_equal length) in E. rewrite take_app_ge in E by lia.
    rewrite length_app in E. unfold resolverMagic in E.
    cbn [length] in E. lia. }
  destruct (take (8 - length d) (replicate k 0)) as [|z l] eqn:Et;
    [simpl in Hl; lia|].
  assert (z = 0).
  { assert (Hz : z ∈ take (8 - length d) (replicate k 0))
      by (rewrite Et; left).
    apply elem_of_take in Hz as (i & Hi & _).
    apply lookup_replicate in Hi. tauto. }
  inversion Hin; subst. congruence.
Qed.

Lemma addPadding_inl (draw : Z) (q : list Z) :
  addPadding (inl draw) q = Panic \/
  exists padded, addPadding (inl draw) q = Ret (padded, None).
Proof.
  unfold addPadding.
  destruct (store (make (to_byte draw)) 0 128) as [padding| |] eqn:E.
  - right. eexists. reflexivity.
  - now left.
  - unfold store in E. destruct (_ && _); discriminate.
Qed.

Lemma length_fill (n : Z) (bs : list Z) :
  0 <= n -> length (fill n bs) = Z.to_nat n.
Proof.
  intros H. unfold fill, make. rewrite length_take, length_app, length_replicate.
  lia.
Qed.

Lemma length_query_nonce (nonceHalf : list Z) :
  length (copy (make 24) (fill 12 nonceHalf ++ make 16)) = 24%nat.
Proof.
  unfold copy. rewrite length_app, length_take, length_drop, length_app.
  rewrite length_fill by lia. unfold make. rewrite !length_replicate. lia.
Qed.

(** The nonce of the response is the 24 bytes that follow the magic in the
    received header, whatever the nonce array held before. *)
Lemma response_nonce (d nonce : list Z) :
  32 <= len d <= dnsMaxSizeUDP -> length nonce = 24%nat ->
  copy nonce (take 12 (drop 8 (take 32 (received d)))
              ++ take 12 (drop 20 (take 32 (received d))))
  = take 24 (drop 8 d).
Proof.
  intros Hd Hn. rewrite received_app by lia.
  rewrite take_app_le by (unfold len in Hd; lia).
  replace (drop 20 (take 32 d)) with (drop 12 (drop 8 (take 32 d)))
    by (now rewrite drop_drop).
  rewrite take_take_drop. change (12 + 12)%nat with 24%nat.
  assert (Hh : take 24 (drop 8 (take 32 d)) = take 24 (drop 8 d)).
  { rewrite (take_drop_commute (take 32 d) 24 8), (take_drop_commute d 24 8).
    change (8 + 24)%nat with 32%nat. now rewrite take_idemp. }
  rewrite Hh. unfold copy. rewrite Hn.
  assert (Hl : length (take 24 (drop 8 d)) = 24%nat).
  { rewrite length_take, length_drop. unfold len in Hd. lia. }
  rewrite Hl, take_idemp.
  rewrite (drop_ge nonce) by lia. apply app_nil_r.
Qed.

Lemma encrypted_response (d : list Z) :
  32 <= len d <= dnsMaxSizeUDP ->
  slice (received d) 32 (Z.min (len d) dnsMaxSizeUDP) = Ret (drop 32 d).
Proof.
  intros Hd. rewrite Z.min_l by lia.
  rewrite slice_ok by (rewrite ?len_received; lia).
  f_equal. rewrite received_app by lia.
  replace (Z.to_nat 32) with 32%nat by reflexivity.
  rewrite drop_app_le by (unfold len in Hd; lia).
  rewrite take_app_ge; rewrite length_drop; unfold len; [|lia].
  replace (Z.to_nat (Z.of_nat (length d) - 32) - (length d - 32))%nat
    with 0%nat by lia.
  rewrite take_0. apply app_nil_r.
Qed.

Section Exchange.

Variable box_Seal : list Z -> list Z -> list Z -> list Z -> list Z.
Variable box_Open : list Z -> list Z -> list Z -> list Z -> option (list Z).
Variable Msg : Type.
Variable emptyMsg : Msg.
Variable PackBuffer : Msg -> list Z + error.
Variable Unpack : list Z -> Msg + error.

Local Abbreviation Exchange :=
  (ExchangeEncrypted box_Seal box_Open Msg emptyMsg PackBuffer Unpack).

(** C9: a reply shorter than the 32-byte header.  When its first eight
    bytes are the resolver magic the slice [p[32:n]] is out of range and the
    call panics; when they are not, the call returns the magic-mismatch
    error (for a draw of [addPadding] that lets the query be sent). *)
Theorem ExchangeEncrypted_short_reply (env : exchangeEnv) (msg : Msg)
    (bincertFields : SignedBincertFields) (nonceHalf clientPK clientSK : list Z)
    (query datagram : list Z) (draw : Z) :
  rand_Read env = inl nonceHalf ->
  GenerateKey env = inl (clientPK, clientSK) ->
  PackBuffer msg = inl query ->
  rand_Int env = inl draw ->
  Dial env = None ->
  conn_Read env = inl datagram ->
  len datagram < 32 ->
  (take 8 datagram = resolverMagic ->
   Exchange env msg bincertFields = Panic) /\
  (take 8 datagram <> resolverMagic -> 1 <= draw <= 254 ->
   exists sent,
     Exchange env msg bincertFields
     = Ret (sent, (emptyMsg, Some ErrMagicMismatch))).
Proof.
  intros Hrand Hkey Hpack Hdraw Hdial Hread Hshort.
  pose proof dnsMaxSizeUDP_value as HM.
  assert (Hlen : len datagram <= dnsMaxSizeUDP) by lia.
  destruct (header_bytes datagram Hlen) as [Hslice Hheader].
  unfold ExchangeEncrypted.
  rewrite Hrand, Hkey, Hpack, Hdraw, Hdial, Hread.
  fold (received datagram). cbv zeta.
  rewrite Hslice. split.
  - intros Hmagic.
    destruct (addPadding_inl draw query) as [-> | [padded ->]]; trivial.
    cbn [mbind run_bind bind]. rewrite Hheader. cbn [ServerMagic].
    assert (Hm : take 8 (received datagram) = resolverMagic).
    { rewrite received_app by trivial. rewrite take_app_le; trivial.
      apply (f_equal length) in Hmagic. rewrite length_take in Hmagic.
      unfold resolverMagic in Hmagic. cbn [length] in Hmagic. lia. }
    rewrite Hm. unfold bytes_eqb at 1.
    rewrite bool_decide_eq_true_2 by reflexivity. cbn [negb].
    rewrite slice_out by lia. reflexivity.
  - intros Hmagic Hd. rewrite addPadding_draw by trivial.
    cbn [mbind run_bind bind]. rewrite Hheader. cbn [ServerMagic].
    assert (Hm : take 8 (received datagram) <> resolverMagic).
    { rewrite received_app by trivial.
      destruct (Nat.lt_ge_cases (length datagram) 8).
      - now apply magic_has_no_zero.
      - rewrite take_app_le; trivial. }
    unfold bytes_eqb at 1. rewrite bool_decide_eq_false_2 by trivial.
    cbn [negb]. eexists. reflexivity.
Qed.

(** C10: the echoed client nonce is not compared with the one sent.
    Whatever nonce half the call drew and sent in its query header, a reply
    with the resolver magic is accepted as soon as its ciphertext opens
    under the nonce made of the 24 bytes that follow the magic in the
    reply itself; no hypothesis ties those bytes to [nonceHalf]. *)
Theorem ExchangeEncrypted_echoed_nonce_unchecked (env : exchangeEnv)
    (msg : Msg) (bincertFields : SignedBincertFields)
    (nonceHalf clientPK clientSK query datagram plain response : list Z)
    (draw : Z) (reply : Msg) :
  rand_Read env = inl nonceHalf ->
  GenerateKey env = inl (clientPK, clientSK) ->
  PackBuffer msg = inl query ->
  rand_Int env = inl draw -> 1 <= draw <= 254 ->
  Dial env = None ->
  conn_Read env = inl datagram ->
  32 <= len datagram <= dnsMaxSizeUDP ->
  take 8 datagram = resolverMagic ->
  box_Open (drop 32 datagram) (take 24 (drop 8 datagram))
           (ServerPublicKey bincertFields) clientSK = Some plain ->
  removePadding plain = Ret (response, None) ->
  Unpack response = inl reply ->
  Exchange env msg bincertFields
  = Ret ([MagicQuery bincertFields ++ clientPK ++ fill 12 nonceHalf
          ++ box_Seal (query ++ 0x80 :: replicate (Z.to_nat (draw - 1)) 0)
                      (copy (make 24) (fill 12 nonceHalf ++ make 16))
                      (ServerPublicKey bincertFields) clientSK],
         (reply, None)).
Proof.
  intros Hrand Hkey Hpack Hdraw Hd Hdial Hread Hlen Hmagic Hopen Hpad Hunpack.
  assert (Hlen' : len datagram <= dnsMaxSizeUDP) by lia.
  destruct (header_bytes datagram Hlen') as [Hslice Hheader].
  unfold ExchangeEncrypted.
  rewrite Hrand, Hkey, Hpack, Hdraw, Hdial, Hread.
  fold (received datagram). cbv zeta.
  rewrite Hslice, addPadding_draw by trivial.
  cbn [mbind run_bind bind]. rewrite Hheader.
  cbn [ServerMagic EchoedClientNonce ServerNonce ClientNonce].
  assert (Hm : take 8 (received datagram) = resolverMagic).
  { rewrite received_app by trivial. rewrite take_app_le; trivial.
    unfold len in Hlen. lia. }
  rewrite Hm. unfold bytes_eqb at 1.
  rewrite bool_decide_eq_true_2 by reflexivity. cbn [negb].
  rewrite encrypted_response by trivial. cbn [mbind run_bind bind].
  rewrite response_nonce by (trivial; apply length_query_nonce).
  rewrite Hopen, Hpad. cbn [mbind run_bind bind]. rewrite Hunpack.
  unfold Write_dnsCryptQueryHeader.
  cbn [ClientMagic ClientPublicKey ClientNonce].
  now rewrite <- !app_assoc.
Qed.

End Exchange.

(** A ten-byte reply that starts with the magic, and a reply of three
    zero bytes. *)
Lemma ExchangeEncrypted_short_reply_witness :
  ExchangeEncrypted toySeal toyOpen (list Z) [] inl inl
    (testEnv (resolverMagic ++ [1; 2])) [7; 7] (certFields 75) = Panic /\
  exists sent,
    ExchangeEncrypted toySeal toyOpen (list Z) [] inl inl
      (testEnv [0; 0; 0]) [7; 7] (certFields 75)
    = Ret (sent, ([], Some ErrMagicMismatch)).
Proof.
  split.
  - apply (proj1 (ExchangeEncrypted_short_reply toySeal toyOpen (list Z) []
                    inl inl (testEnv (resolverMagic ++ [1; 2])) [7; 7]
                    (certFields 75) testNonceHalf testPK testSK [7; 7] _ 3
                    eq_refl eq_refl eq_refl eq_refl eq_refl eq_refl eq_refl)).
    reflexivity.
  - apply (proj2 (ExchangeEncrypted_short_reply toySeal toyOpen (list Z) []
                    inl inl (testEnv [0; 0; 0]) [7; 7]
                    (certFields 75) testNonceHalf testPK testSK [7; 7] _ 3
                    eq_refl eq_refl eq_refl eq_refl eq_refl eq_refl eq_refl)).
    + discriminate.
    + lia.
Defined.

(** A reply that echoes a nonce half other than the one sent. *)
Lemma ExchangeEncrypted_echoed_nonce_unchecked_witness :
  take 12 (drop 8 foreignReply) <> testNonceHalf /\
  exists sent,
    ExchangeEncrypted toySeal toyOpen (list Z) [] inl inl
      (testEnv foreignReply) [7; 7] (certFields 75)
    = Ret ([sent], ([42; 43], None)) /\
    take 12 (drop 40 sent) = testNonceHalf.
Proof.
  split; [discriminate|].
  eexists. split.
  - apply (ExchangeEncrypted_echoed_nonce_unchecked toySeal toyOpen (list Z)
             [] inl inl (testEnv foreignReply) [7; 7] (certFields 75)
             testNonceHalf testPK testSK [7; 7] foreignReply
             [42; 43; 0x80; 0] [42; 43] 3 [42; 43]);
      first [ reflexivity | lia | vm_compute; split; discriminate ].
  - reflexivity.
Defined.

(** * Further properties of the codecs, the resolver and the exchange *)

(** ** Padding codec *)

Lemma TrimRight_split (s : list Z) (c : Z) :
  exists k, s = TrimRight s c ++ replicate k c.
Proof.
  induction s as [|x r [k IH]].
  - exists 0%nat. reflexivity.
  - simpl. destruct (TrimRight r c) as [|y t] eqn:E.
    + simpl in IH. destruct (Z.eqb_spec x c) as [->|].
      * exists (S k). simpl. now rewrite IH at 1.
      * exists k. simpl. now rewrite IH at 1.
    + exists k. simpl. now rewrite IH at 1.
Qed.

Lemma TrimRight_last (s t : list Z) (x c : Z) :
  TrimRight s c = t ++ [x] -> x <> c.
Proof.
  revert t. induction s as [|y r IH]; intros t E.
  - destruct t; discriminate.
  - simpl in E. destruct (TrimRight r c) as [|z u] eqn:Er.
    + destruct (Z.eqb_spec y c); [destruct t; discriminate|].
      destruct t as [|? [|? ?]]; try discriminate.
      injection E as <-. trivial.
    + destruct t as [|w t]; [discriminate|].
      injection E as _ E. now apply (IH t).
Qed.

(** The three ways [removePadding] ends, by the shape of its input. *)
Lemma removePadding_outcome (padded : list Z) :
  (exists n, padded = replicate n 0 /\ removePadding padded = Panic) \/
  (exists out k, padded = out ++ 0x80 :: replicate k 0 /\
                 removePadding padded = Ret (out, None)) \/
  (exists t x k, padded = t ++ x :: replicate k 0 /\ x <> 0 /\ x <> 0x80 /\
                 removePadding padded = Ret ([], Some ErrInvalidPadding)).
Proof.
  destruct (TrimRight_split padded 0) as [k Hk].
  destruct (TrimRight padded 0) as [|y u] eqn:E using rev_ind.
  - left. exists k. split; [exact Hk|].
    unfold removePadding. rewrite E. reflexivity.
  - clear IHu. right. pose proof (TrimRight_last _ _ _ _ E) as Hy.
    pose proof (removePadding_trimmed _ _ _ E) as Hr.
    rewrite <- app_assoc in Hk. simpl in Hk.
    destruct (Z.eqb_spec y 128) as [->|Hne].
    + left. exists u, k. split; trivial.
    + right. exists u, y, k. repeat split; trivial.
Qed.

(** X1: [removePadding] succeeds exactly on a message followed by the
    marker 0x80 and any number of zero bytes, and then returns that
    message. *)
Theorem removePadding_accepts_iff (padded out : list Z) :
  removePadding padded = Ret (out, None) <->
  exists k, padded = out ++ 0x80 :: replicate k 0.
Proof.
  split.
  - intros H.
    destruct (removePadding_outcome padded)
      as [(n & _ & Hr) | [(o & k & Hp & Hr) | (t & x & k & _ & _ & _ & Hr)]];
      rewrite Hr in H; try discriminate.
    injection H as ->. now exists k.
  - intros [k ->]. rewrite (removePadding_trimmed _ out 0x80); trivial.
    apply TrimRight_marker. lia.
Qed.

(** X2: [removePadding] panics exactly on the inputs made of zero bytes
    only, the empty input among them; on every other input it returns, and
    the only error it returns is the invalid-padding error, with an empty
    slice. *)
Theorem removePadding_panics_iff (padded : list Z) :
  (removePadding padded = Panic <-> padded = replicate (length padded) 0) /\
  (forall out e, removePadding padded = Ret (out, Some e) ->
                 out = [] /\ e = ErrInvalidPadding) /\
  removePadding padded <> Fuel.
Proof.
  destruct (removePadding_outcome padded)
    as [(n & Hp & Hr) | [(o & k & Hp & Hr) | (t & x & k & Hp & Hx0 & _ & Hr)]];
    rewrite Hr; (split; [split | split; [|discriminate]]).
  - intros _. rewrite Hp at 1. now rewrite Hp, length_replicate.
  - reflexivity.
  - discriminate.
  - discriminate.
  - intros Hz. exfalso.
    assert (Hin : 128 ∈ padded) by (rewrite Hp; apply elem_of_app; right; left).
    rewrite Hz in Hin. apply elem_of_replicate in Hin. lia.
  - discriminate.
  - discriminate.
  - intros Hz. exfalso.
    assert (Hin : x ∈ padded) by (rewrite Hp; apply elem_of_app; right; left).
    rewrite Hz in Hin. apply elem_of_replicate in Hin. tauto.
  - intros out e [= <- <-]. split; reflexivity.
Qed.

(** ** Text unescape codec *)

Lemma unescape_plain_app (a b : list Z) :
  Forall (fun c => c <> 0x5C) a ->
  unescape (a ++ b) = (a ++ fst (unescape b), snd (unescape b)).
Proof.
  induction 1 as [|c a Hc _ IH].
  - simpl. now destruct (unescape b).
  - simpl app. rewrite unescape_plain by trivial. now rewrite IH.
Qed.

(** X3: a prefix without a backslash is copied as it is, and the decoding
    goes on behind it as on the rest alone, on success and on failure; a
    text without a backslash is its own decoding. *)
Theorem unpackTXT_plain_prefix (a b out : list Z) (err : option error) :
  Forall (fun c => c <> 0x5C) a ->
  unpackTXT b = Ret (out, err) ->
  unpackTXT (a ++ b) = Ret (a ++ out, err) /\ unpackTXT a = Ret (a, None).
Proof.
  intros Ha. rewrite !unpackTXT_returned. intros [= Hb]. split.
  - f_equal. revert Hb. unfold returned.
    rewrite unescape_plain_app by trivial. cbn [fst snd].
    pose proof (unescape_length b) as Hlen.
    destruct (snd (unescape b)); intros [= <- <-]; [reflexivity|].
    rewrite <- app_assoc, !length_app.
    replace (length a + length b - (length a + length (fst (unescape b))))%nat
      with (length b - length (fst (unescape b)))%nat by lia.
    reflexivity.
  - f_equal. pose proof (unescape_plain_app a [] Ha) as E.
    rewrite app_nil_r in E. simpl in E. rewrite app_nil_r in E.
    unfold returned. now rewrite E.
Qed.

(** A text of printable characters before an escape. *)
Lemma unpackTXT_plain_prefix_witness :
  unpackTXT ([68; 78; 83; 67] ++ [0x5C; 48; 48; 49])
  = Ret ([68; 78; 83; 67] ++ [1], None) /\
  unpackTXT [68; 78; 83; 67] = Ret ([68; 78; 83; 67], None).
Proof.
  apply (unpackTXT_plain_prefix [68; 78; 83; 67] [0x5C; 48; 48; 49] [1] None).
  - repeat constructor; discriminate.
  - reflexivity.
Defined.

Lemma escapeDDD_digits (b : Z) :
  is_byte b ->
  IsDigit (48 + b / 100) = true /\
  IsDigit (48 + (b / 10) mod 10) = true /\
  IsDigit (48 + b mod 10) = true /\
  decimal3 (48 + b / 100) (48 + (b / 10) mod 10) (48 + b mod 10) = b.
Proof.
  unfold is_byte. intros Hb.
  assert (H100 : b / 100 = (b / 10) / 10) by (rewrite Z.div_div by lia; reflexivity).
  pose proof (Z.div_mod b 10 ltac:(lia)) as E1.
  pose proof (Z.div_mod (b / 10) 10 ltac:(lia)) as E2.
  pose proof (Z.mod_pos_bound b 10 ltac:(lia)) as B1.
  pose proof (Z.mod_pos_bound (b / 10) 10 ltac:(lia)) as B2.
  rewrite !IsDigit_range. unfold decimal3. rewrite H100. lia.
Qed.

Lemma unescape_escapeDDD (b : Z) (rest : list Z) :
  is_byte b -> unescape (escapeDDD b ++ rest) = emit b (unescape rest).
Proof.
  intros Hb. destruct (escapeDDD_digits b Hb) as (H1 & H2 & H3 & Hv).
  unfold escapeDDD. simpl app. rewrite unescape_ddd by trivial.
  rewrite Hv. unfold is_byte in Hb. now rewrite Z.mod_small by lia.
Qed.

(** X4: round trip through the form [\DDD].  A sequence of bytes, each
    written as a backslash and the three digits of its value, is decoded to
    exactly that sequence. *)
Theorem unpackTXT_escapeDDD (bs : list Z) :
  Forall is_byte bs ->
  unpackTXT (flat_map escapeDDD bs) = Ret (bs, None).
Proof.
  intros Hbs. rewrite unpackTXT_returned.
  assert (H : unescape (flat_map escapeDDD bs) = (bs, true)).
  { induction Hbs as [|b bs Hb _ IH]; [reflexivity|].
    change (flat_map escapeDDD (b :: bs))
      with (escapeDDD b ++ flat_map escapeDDD bs).
    rewrite unescape_escapeDDD by trivial.
    now rewrite IH. }
  now rewrite H.
Qed.

(** The bytes 0, 255 and 92 in the form [\DDD]. *)
Lemma unpackTXT_escapeDDD_witness :
  unpackTXT [0x5C; 48; 48; 48; 0x5C; 50; 53; 53; 0x5C; 48; 57; 50]
  = Ret ([0; 255; 92], None).
Proof.
  apply (unpackTXT_escapeDDD [0; 255; 92]).
  repeat constructor; unfold is_byte; lia.
Defined.

(** X5: the escaped backslash and the escaped quotation mark are not
    decoded.  After a prefix without a backslash, a backslash followed by a
    backslash or by a quotation mark makes [unpackTXT] return the escape
    error, with the buffer holding the prefix and zeros. *)
Theorem unpackTXT_escaped_backslash_rejected (a rest : list Z) (e : Z) :
  Forall (fun c => c <> 0x5C) a ->
  e = 0x5C \/ e = 0x22 ->
  unpackTXT (a ++ 0x5C :: e :: rest)
  = Ret (a ++ replicate (2 + length rest) 0, Some ErrInvalidEscape).
Proof.
  intros Ha He. rewrite unpackTXT_returned. unfold returned.
  rewrite unescape_plain_app by trivial.
  rewrite unescape_other by (destruct He as [-> | ->]; reflexivity).
  cbn [fst snd]. rewrite !app_nil_r, length_app. cbn [length].
  replace (length a + S (S (length rest)) - length a)%nat
    with (2 + length rest)%nat by lia.
  reflexivity.
Qed.

(** The text [ab\\cd]. *)
Lemma unpackTXT_escaped_backslash_rejected_witness :
  unpackTXT ([97; 98] ++ 0x5C :: 0x5C :: [99; 100])
  = Ret ([97; 98] ++ replicate (2 + length [99; 100]) 0,
         Some ErrInvalidEscape).
Proof.
  apply (unpackTXT_escaped_backslash_rejected [97; 98] [99; 100] 0x5C).
  - repeat constructor; discriminate.
  - now left.
Defined.

Lemma escapeChar_byte (e b : Z) : escapeChar e = Some b -> is_byte b.
Proof.
  unfold escapeChar, is_byte.
  destruct (e =? 110); [intros [= <-]; lia|].
  destruct (e =? 116); [intros [= <-]; lia|].
  destruct (e =? 114); [intros [= <-]; lia | discriminate].
Qed.

Lemma unescape_bytes_bounded (n : nat) :
  forall txt, (length txt <= n)%nat -> Forall is_byte txt ->
              Forall is_byte (fst (unescape txt)).
Proof.
  induction n as [|n IH]; intros txt Hn Htxt.
  - destruct txt; [constructor | simpl in Hn; lia].
  - destruct txt as [|c rest]; [constructor|].
    simpl in Hn. inversion Htxt as [|? ? Hc Hrest]; subst.
    cbn [unescape]. destruct (c =? 92).
    2:{ simpl. constructor; trivial. apply IH; trivial. lia. }
    destruct rest as [|e rest1]; [constructor|].
    simpl in Hn. inversion Hrest as [|? ? He Hrest1]; subst.
    assert (Hsingle :
      Forall is_byte (fst match escapeChar e with
                          | Some b => emit b (unescape rest1)
                          | None => ([], false)
                          end)).
    { destruct (escapeChar e) as [b|] eqn:Eb; [|constructor].
      simpl. constructor; [now apply (escapeChar_byte e)|].
      apply IH; trivial. lia. }
    destruct rest1 as [|d2 [|d3 rest3]]; trivial.
    destruct (IsDigit e && IsDigit d2 && IsDigit d3); trivial.
    simpl. constructor.
    + unfold is_byte, to_byte. apply Z.mod_pos_bound. lia.
    + apply IH; [simpl in Hn; lia|].
      inversion Hrest1 as [|? ? _ H2]; subst.
      now inversion H2.
Qed.

(** X6: [unpackTXT] keeps byte values: whatever it returns for a text of
    bytes, on success or with the error, holds values of 0 to 255 only. *)
Theorem unpackTXT_bytes (txt out : list Z) (err : option error) :
  Forall is_byte txt ->
  unpackTXT txt = Ret (out, err) ->
  Forall is_byte out.
Proof.
  intros Htxt. rewrite unpackTXT_returned. intros [= E].
  apply (f_equal fst) in E. cbn [fst] in E. subst out.
  pose proof (unescape_bytes_bounded (length txt) txt (le_n _) Htxt) as H.
  unfold returned. destruct (snd (unescape txt)); trivial.
  cbn [fst]. apply Forall_app. split; trivial.
  apply Forall_replicate. unfold is_byte. lia.
Qed.

(** The escape of 999 on a text of bytes. *)
Lemma unpackTXT_bytes_witness : Forall is_byte [231].
Proof.
  apply (unpackTXT_bytes [0x5C; 57; 57; 57] [231] None).
  - repeat constructor; unfold is_byte; lia.
  - reflexivity.
Defined.

(** ** Wire decoding *)

Lemma length_field (bs : list Z) (lo hi : Z) :
  0 <= lo <= hi -> hi <= len bs ->
  length (field bs lo hi) = Z.to_nat (hi - lo).
Proof.
  intros H1 H2. unfold field, len in *.
  rewrite length_take, length_drop. lia.
Qed.

Lemma ReadFull_longer (r extra bs : list Z) (size : Z) :
  0 < size -> ReadFull r size = inl bs ->
  ReadFull (r ++ extra) size = inl bs /\ len bs = size.
Proof.
  intros Hs H. apply ReadFull_inl in H as [Hlen ->].
  pose proof (len_nonneg extra). unfold ReadFull. rewrite len_app.
  destruct (Z.eqb_spec (len r + len extra) 0); [lia|].
  destruct (Z.ltb_spec (len r + len extra) size); [lia|].
  split.
  - f_equal. apply take_app_le. unfold len in Hlen. lia.
  - unfold len in *. rewrite length_take. lia.
Qed.

(** X7: the layout of a decoded certificate.  A certificate that
    [binary.Read] decodes has a magic of 4 bytes, a signature of 64 bytes
    and signed data of 52 bytes, so the decoding of the inner structure from
    the signed data cannot fail and gives a key of 32 bytes, a client magic
    of 8 and a serial of 4; and bytes that follow the first 124 are
    ignored. *)
Theorem Read_signedBincert_layout (r : list Z) (c : signedBincert) :
  Read_signedBincert r = inl c ->
  length (MagicCert c) = 4%nat /\
  length (Signature c) = 64%nat /\
  length (SignedData c) = 52%nat /\
  (exists f, Read_SignedBincertFields (SignedData c) = inl f /\
             length (ServerPublicKey f) = 32%nat /\
             length (MagicQuery f) = 8%nat /\
             length (Serial f) = 4%nat) /\
  (forall extra, Read_signedBincert (r ++ extra) = inl c).
Proof.
  unfold Read_signedBincert.
  destruct (ReadFull r 124) as [bs|] eqn:E; [|discriminate].
  intros [= <-]. cbn [MagicCert Signature SignedData].
  destruct (ReadFull_longer r [] bs 124 ltac:(lia) E) as [_ Hbs].
  assert (H52 : length (field bs 72 124) = 52%nat)
    by (rewrite length_field by lia; reflexivity).
  split; [rewrite length_field by lia; reflexivity|].
  split; [rewrite length_field by lia; reflexivity|].
  split; [exact H52|]. split.
  - unfold Read_SignedBincertFields, ReadFull.
    assert (Hl : len (field bs 72 124) = 52) by (unfold len; lia).
    rewrite Hl. simpl (52 =? 0). simpl (52 <? 52). cbv iota.
    eexists. split; [reflexivity|].
    cbn [ServerPublicKey MagicQuery Serial].
    assert (Ht : len (take (Z.to_nat 52) (field bs 72 124)) = 52).
    { unfold len. rewrite length_take. lia. }
    repeat split; rewrite length_field by lia; reflexivity.
  - intros extra.
    destruct (ReadFull_longer r extra bs 124 ltac:(lia) E) as [-> _].
    reflexivity.
Qed.

(** The test vector, followed by two more bytes. *)
Lemma Read_signedBincert_layout_witness :
  length (SignedData (certParsed certificateMagic 1 75)) = 52%nat /\
  Read_signedBincert
    ((certificateMagic ++ [0; 1; 0; 0] ++ replicate 64 83
        ++ certSignedData 75) ++ [7; 7])
  = inl (certParsed certificateMagic 1 75).
Proof.
  destruct (Read_signedBincert_layout
              (certificateMagic ++ [0; 1; 0; 0] ++ replicate 64 83
                 ++ certSignedData 75)
              (certParsed certificateMagic 1 75))
    as (_ & _ & H52 & _ & Hextra).
  - vm_compute. reflexivity.
  - split; [exact H52 | apply Hextra].
Defined.

(** ** Certificate resolver *)

(** An iteration of the loop that goes on to the next answer has decoded
    the answer. *)
Lemma GetValidCert_loop_continues (answer : RR) (answers : list RR)
    (bincert kept : option signedBincert) :
  GetValidCert_loop (answer :: answers) bincert = Ret (inl kept) ->
  exists c, parseAnswer answer = Some c /\
            GetValidCert_loop answers (supported c) = Ret (inl kept).
Proof.
  cbn [GetValidCert_loop]. unfold parseAnswer.
  destruct answer as [[|txt0 more]|]; try discriminate.
  rewrite (index_ok _ 0 txt0) by (try reflexivity; lia).
  cbn [mbind run_bind bind].
  destruct (slice txt0 0 5) as [prefix| |]; try discriminate.
  cbn [mbind run_bind bind].
  destruct (bytes_eqb prefix certificateMagic); [discriminate|].
  destruct (unpackTXT txt0) as [[u [e|]]| |]; try discriminate.
  cbn [mbind run_bind bind].
  destruct (Read_signedBincert u) as [parsed|]; [|discriminate].
  intros H. exists parsed. split; [reflexivity|].
  unfold supported. destruct (VersionMajor parsed =? 1); exact H.
Qed.

(** A certificate the scan holds at its end comes from the last answer and
    has major version 1. *)
Lemma GetValidCert_loop_kept (answers : list RR) (c : signedBincert) :
  forall bincert,
    answers <> [] ->
    GetValidCert_loop answers bincert = Ret (inl (Some c)) ->
    exists a, last answers = Some a /\ parseAnswer a = Some c /\
              VersionMajor c = 1.
Proof.
  induction answers as [|a answers IH]; intros bincert Hne H; [congruence|].
  apply GetValidCert_loop_continues in H as (c' & Hparse & H).
  destruct answers as [|a' answers].
  - exists a. split; [reflexivity|].
    cbn [GetValidCert_loop] in H. injection H as H.
    unfold supported in H.
    destruct (Z.eqb_spec (VersionMajor c') 1); [|discriminate].
    injection H as ->. split; trivial.
  - destruct (IH (supported c') ltac:(discriminate) H) as (a0 & Hl & Hp & Hv).
    exists a0. split; [|split; trivial].
    rewrite last_cons, Hl. reflexivity.
Qed.

Lemma GetValidCert_loop_prefix (pre : list RR) (certs : list signedBincert) :
  Forall2 (fun a c => parseAnswer a = Some c) pre certs ->
  forall rest bincert,
    GetValidCert_loop (pre ++ rest) bincert
    = GetValidCert_loop rest (match last certs with
                              | Some c => supported c
                              | None => bincert
                              end).
Proof.
  induction 1 as [|a c pre certs Hparse _ IH]; intros rest bincert.
  - reflexivity.
  - simpl app. rewrite (GetValidCert_loop_step a c) by trivial.
    rewrite IH, last_cons. destruct (last certs); reflexivity.
Qed.

Section ResolverLaws.

Variable ed25519_Verify : list Z -> list Z -> list Z -> run bool.

(** X8: what a success of [GetValidCert] means.  When the call returns
    fields and no error, the last answer decoded to a certificate of major
    version 1, the signature of that certificate verified over its signed
    data under the provider key, the fields are the decoding of the signed
    data, and the clock is not negative and lies in the validity window,
    bounds included. *)
Theorem GetValidCert_sound (answers : list RR) (providerKey : list Z)
    (nowSigned : Z) (f : SignedBincertFields) :
  - 2 ^ 63 <= nowSigned < 2 ^ 63 ->
  0 <= TSBegin f < 2 ^ 32 -> 0 <= TSEnd f < 2 ^ 32 ->
  GetValidCert ed25519_Verify (inl answers) providerKey nowSigned
    = Ret (f, None) ->
  exists a c,
    last answers = Some a /\ parseAnswer a = Some c /\ VersionMajor c = 1 /\
    ed25519_Verify providerKey (SignedData c) (Signature c) = Ret true /\
    Read_SignedBincertFields (SignedData c) = inl f /\
    0 <= nowSigned /\ TSBegin f <= nowSigned <= TSEnd f.
Proof.
  intros Hnow Hbegin Hend. unfold GetValidCert.
  destruct (Z.eqb_spec (len answers) 0) as [|Hlen]; [discriminate|].
  assert (Hne : answers <> []) by (intros ->; apply Hlen; reflexivity).
  destruct (GetValidCert_loop answers None) as [[[c|]|e]| |] eqn:Hscan;
    try discriminate.
  cbn [mbind run_bind bind].
  destruct (ed25519_Verify providerKey (SignedData c) (Signature c))
    as [[|]| |] eqn:Hverify; try discriminate.
  cbn [mbind run_bind bind negb].
  destruct (Read_SignedBincertFields (SignedData c)) as [f'|] eqn:Hread;
    [|discriminate].
  destruct (Z.leb_spec 0 nowSigned) as [Hpos|]; [|discriminate].
  destruct (Z.ltb_spec (to_uint64 nowSigned) (to_uint64 (TSBegin f')))
    as [|Hb]; [discriminate|].
  destruct (Z.ltb_spec (to_uint64 (TSEnd f')) (to_uint64 nowSigned))
    as [|He]; [discriminate|].
  intros [= ->].
  rewrite !to_uint64_small in Hb, He by lia.
  destruct (GetValidCert_loop_kept answers c None Hne Hscan)
    as (a & Hlast & Hparse & Hv1).
  exists a, c. repeat split; trivial; lia.
Qed.

(** X9: one answer that is not a TXT record fails the call, wherever it
    stands among answers that decode, also behind a certificate that would
    have been accepted. *)
Theorem GetValidCert_non_TXT (pre post : list RR) (certs : list signedBincert)
    (providerKey : list Z) (nowSigned : Z) :
  Forall2 (fun a c => parseAnswer a = Some c) pre certs ->
  GetValidCert ed25519_Verify (inl (pre ++ OtherRR :: post)) providerKey
               nowSigned
  = Ret (zeroFields, Some ErrNotTXT).
Proof.
  intros Hpre. unfold GetValidCert.
  replace (len (pre ++ OtherRR :: post) =? 0) with false.
  - rewrite (GetValidCert_loop_prefix _ _ Hpre). reflexivity.
  - symmetry. apply Z.eqb_neq. rewrite len_app, len_cons.
    pose proof (len_nonneg pre). pose proof (len_nonneg post). lia.
Qed.

(** X10: a TXT record without a string, or whose first string has fewer
    than five bytes, makes the call panic, wherever it stands among answers
    that decode. *)
Theorem GetValidCert_short_text_panics (pre post : list RR)
    (certs : list signedBincert) (Txt : list (list Z))
    (providerKey : list Z) (nowSigned : Z) :
  Forall2 (fun a c => parseAnswer a = Some c) pre certs ->
  match Txt with [] => True | txt0 :: _ => len txt0 < 5 end ->
  GetValidCert ed25519_Verify (inl (pre ++ TXT Txt :: post)) providerKey
               nowSigned
  = Panic.
Proof.
  intros Hpre Hshort. unfold GetValidCert.
  replace (len (pre ++ TXT Txt :: post) =? 0) with false.
  - rewrite (GetValidCert_loop_prefix _ _ Hpre).
    cbn [GetValidCert_loop]. destruct Txt as [|txt0 more]; [reflexivity|].
    rewrite (index_ok _ 0 txt0) by (try reflexivity; lia).
    cbn [mbind run_bind bind]. unfold slice.
    replace (5 <=? len txt0) with false by (symmetry; apply Z.leb_gt; lia).
    rewrite andb_false_r. reflexivity.
  - symmetry. apply Z.eqb_neq. rewrite len_app, len_cons.
    pose proof (len_nonneg pre). pose proof (len_nonneg post). lia.
Qed.

(** X11: no partial result.  Whenever [GetValidCert] returns an error, the
    fields it returns with it are the zero value. *)
Theorem GetValidCert_error_zero (exchange : list RR + error)
    (providerKey : list Z) (nowSigned : Z) (f : SignedBincertFields)
    (e : error) :
  GetValidCert ed25519_Verify exchange providerKey nowSigned
    = Ret (f, Some e) ->
  f = zeroFields.
Proof.
  unfold GetValidCert.
  destruct exchange as [answers|err]; [|intros [= <- _]; reflexivity].
  destruct (len answers =? 0); [intros [= <- _]; reflexivity|].
  destruct (GetValidCert_loop answers None) as [[[c|]|err]| |];
    cbn [mbind run_bind bind]; try discriminate;
    try (intros [= <- _]; reflexivity).
  destruct (ed25519_Verify providerKey (SignedData c) (Signature c))
    as [[|]| |]; cbn [mbind run_bind bind negb]; try discriminate;
    try (intros [= <- _]; reflexivity).
  destruct (Read_SignedBincertFields (SignedData c));
    [|intros [= <- _]; reflexivity].
  destruct (0 <=? nowSigned); [|intros [= <- _]; reflexivity].
  destruct (_ <? _); [intros [= <- _]; reflexivity|].
  destruct (_ <? _); [intros [= <- _]; reflexivity | discriminate].
Qed.

(** X12: the last answer decides.  When all answers decode, whatever their
    versions, the call does what it does on the last answer alone. *)
Theorem GetValidCert_last_answer_decides (answers : list RR)
    (certs : list signedBincert) (lastAnswer : RR) (providerKey : list Z)
    (nowSigned : Z) :
  Forall2 (fun a c => parseAnswer a = Some c) answers certs ->
  last answers = Some lastAnswer ->
  GetValidCert ed25519_Verify (inl answers) providerKey nowSigned
  = GetValidCert ed25519_Verify (inl [lastAnswer]) providerKey nowSigned.
Proof.
  intros Hall Hlast.
  assert (Hne : answers <> []) by (intros ->; discriminate).
  destruct (last certs) as [c|] eqn:Hc.
  2:{ apply last_None in Hc. subst certs. inversion Hall. congruence. }
  pose proof (Forall2_last _ _ _ _ _ Hall Hlast Hc) as Hparse.
  unfold GetValidCert.
  replace (len answers =? 0) with false.
  2:{ symmetry. apply Z.eqb_neq. destruct answers; [congruence|].
      rewrite len_cons. pose proof (len_nonneg answers). lia. }
  simpl (len [lastAnswer] =? 0).
  rewrite (GetValidCert_loop_last _ _ Hall), Hc.
  now rewrite (GetValidCert_loop_step lastAnswer c).
Qed.

End ResolverLaws.

(** An accepted certificate, seen from its end: the test vector under an
    accepting verifier. *)
Lemma GetValidCert_sound_witness :
  exists a c,
    last [TXT [certText certificateMagic 1 75]] = Some a /\
    parseAnswer a = Some c /\ VersionMajor c = 1 /\
    acceptAll testKey (SignedData c) (Signature c) = Ret true /\
    Read_SignedBincertFields (SignedData c) = inl (certFields 75) /\
    0 <= testNow /\
    TSBegin (certFields 75) <= testNow <= TSEnd (certFields 75).
Proof.
  apply (GetValidCert_sound acceptAll [TXT [certText certificateMagic 1 75]]
           testKey testNow (certFields 75));
    first [ vm_compute; reflexivity | unfold testNow; simpl; lia ].
Defined.

(** A record of another type behind a certificate. *)
Lemma GetValidCert_non_TXT_witness :
  GetValidCert acceptAll
    (inl ([TXT [certText certificateMagic 1 75]] ++ OtherRR :: []))
    testKey testNow
  = Ret (zeroFields, Some ErrNotTXT).
Proof.
  apply (GetValidCert_non_TXT acceptAll [TXT [certText certificateMagic 1 75]]
           [] [certParsed certificateMagic 1 75] testKey testNow).
  repeat constructor; vm_compute; reflexivity.
Defined.

(** A record whose text is the four bytes of the magic, behind a
    certificate. *)
Lemma GetValidCert_short_text_panics_witness :
  GetValidCert acceptAll
    (inl ([TXT [certText certificateMagic 1 75]]
            ++ TXT [certificateMagic] :: []))
    testKey testNow
  = Panic.
Proof.
  apply (GetValidCert_short_text_panics acceptAll
           [TXT [certText certificateMagic 1 75]] []
           [certParsed certificateMagic 1 75] [certificateMagic]
           testKey testNow).
  - repeat constructor; vm_compute; reflexivity.
  - vm_compute. reflexivity.
Defined.

(** A certificate whose signature is rejected. *)
Lemma GetValidCert_error_zero_witness :
  GetValidCert rejectAll (inl [TXT [certText certificateMagic 1 75]])
               testKey testNow
  = Ret (zeroFields, Some ErrInvalidSignature) /\
  zeroFields = zeroFields.
Proof.
  split; [vm_compute; reflexivity|].
  apply (GetValidCert_error_zero rejectAll
           (inl [TXT [certText certificateMagic 1 75]]) testKey testNow
           zeroFields ErrInvalidSignature).
  vm_compute. reflexivity.
Defined.

(** A version-2 certificate before a version-1 certificate. *)
Lemma GetValidCert_last_answer_decides_witness :
  GetValidCert acceptAll
    (inl [TXT [certText certificateMagic 2 76];
          TXT [certText certificateMagic 1 75]]) testKey testNow
  = GetValidCert acceptAll (inl [TXT [certText certificateMagic 1 75]])
                 testKey testNow.
Proof.
  apply (GetValidCert_last_answer_decides acceptAll _
           [certParsed certificateMagic 2 76;
            certParsed certificateMagic 1 75]).
  - repeat constructor; vm_compute; reflexivity.
  - reflexivity.
Defined.

(** ** Encrypted exchange engine *)

Lemma fill_exact (n : Z) (bs : list Z) :
  len bs = n -> fill n bs = bs.
Proof.
  intros H. unfold fill. rewrite take_app_le by (unfold len in H; lia).
  apply take_ge. unfold len in H. lia.
Qed.

(** The nonce of the query: the client half, then twelve zero bytes. *)
Lemma query_nonce (nonceHalf : list Z) :
  len nonceHalf = 12 ->
  copy (make 24) (fill 12 nonceHalf ++ make 16) = nonceHalf ++ replicate 12 0.
Proof.
  intros H. rewrite fill_exact by trivial. unfold copy, make, len in *.
  rewrite !length_replicate, length_app, length_replicate.
  rewrite take_app_ge by lia.
  rewrite drop_ge by (rewrite length_replicate; lia).
  rewrite app_nil_r. f_equal.
  replace (Z.to_nat 24 - length nonceHalf)%nat with 12%nat by lia.
  reflexivity.
Qed.

Lemma received_magic (d : list Z) :
  len d <= dnsMaxSizeUDP ->
  take 8 (received d) = resolverMagic -> take 8 d = resolverMagic.
Proof.
  intros Hlen H. rewrite received_app in H by trivial.
  destruct (Nat.lt_ge_cases (length d) 8) as [Hs|Hs].
  - now apply magic_has_no_zero in H.
  - now rewrite take_app_le in H.
Qed.

Section ExchangeLaws.

Variable box_Seal : list Z -> list Z -> list Z -> list Z -> list Z.
Variable box_Open : list Z -> list Z -> list Z -> list Z -> option (list Z).
Variable Msg : Type.
Variable emptyMsg : Msg.
Variable PackBuffer : Msg -> list Z + error.
Variable Unpack : list Z -> Msg + error.

Local Abbreviation Exchange :=
  (ExchangeEncrypted box_Seal box_Open Msg emptyMsg PackBuffer Unpack).

(** The call after the read of a reply of at least 32 bytes that starts
    with the resolver magic. *)
Lemma ExchangeEncrypted_replied (env : exchangeEnv) (msg : Msg)
    (bincertFields : SignedBincertFields)
    (nonceHalf clientPK clientSK query datagram : list Z) (draw : Z) :
  rand_Read env = inl nonceHalf ->
  GenerateKey env = inl (clientPK, clientSK) ->
  PackBuffer msg = inl query ->
  rand_Int env = inl draw -> 1 <= draw <= 254 ->
  Dial env = None ->
  conn_Read env = inl datagram ->
  32 <= len datagram <= dnsMaxSizeUDP ->
  take 8 datagram = resolverMagic ->
  exists sent,
    Exchange env msg bincertFields =
    match box_Open (drop 32 datagram) (take 24 (drop 8 datagram))
                   (ServerPublicKey bincertFields) clientSK with
    | None => Ret (sent, (emptyMsg, Some ErrDecrypt))
    | Some plain =>
        '(response, err) ← removePadding plain;
        match err with
        | Some err => Ret (sent, (emptyMsg, Some err))
        | None =>
            match Unpack response with
            | inr err => Ret (sent, (emptyMsg, Some err))
            | inl reply => Ret (sent, (reply, None))
            end
        end
    end.
Proof.
  intros Hrand Hkey Hpack Hdraw Hd Hdial Hread Hlen Hmagic.
  assert (Hlen' : len datagram <= dnsMaxSizeUDP) by lia.
  destruct (header_bytes datagram Hlen') as [Hslice Hheader].
  unfold ExchangeEncrypted.
  rewrite Hrand, Hkey, Hpack, Hdraw, Hdial, Hread.
  fold (received datagram). cbv zeta.
  rewrite Hslice, addPadding_draw by trivial.
  cbn [mbind run_bind bind]. rewrite Hheader.
  cbn [ServerMagic EchoedClientNonce ServerNonce ClientNonce].
  assert (Hm : take 8 (received datagram) = resolverMagic).
  { rewrite received_app by trivial. rewrite take_app_le; trivial.
    unfold len in Hlen. lia. }
  rewrite Hm. unfold bytes_eqb at 1.
  rewrite bool_decide_eq_true_2 by reflexivity. cbn [negb].
  rewrite encrypted_response by trivial. cbn [mbind run_bind bind].
  rewrite response_nonce by (trivial; apply length_query_nonce).
  eexists. reflexivity.
Qed.

(** X13: a draw of zero in [addPadding] makes the whole exchange panic,
    before anything is sent and whatever the server would answer. *)
Theorem ExchangeEncrypted_zero_draw_panics (env : exchangeEnv) (msg : Msg)
    (bincertFields : SignedBincertFields)
    (nonceHalf clientPK clientSK query : list Z) :
  rand_Read env = inl nonceHalf ->
  GenerateKey env = inl (clientPK, clientSK) ->
  PackBuffer msg = inl query ->
  rand_Int env = inl 0 ->
  Exchange env msg bincertFields = Panic.
Proof.
  intros Hrand Hkey Hpack Hdraw. unfold ExchangeEncrypted.
  rewrite Hrand, Hkey, Hpack, Hdraw. reflexivity.
Qed.

(** X14: a reply that does not open under the nonce of its own header is
    refused with the decryption error, and the message returned is the zero
    message. *)
Theorem ExchangeEncrypted_decrypt_failure (env : exchangeEnv) (msg : Msg)
    (bincertFields : SignedBincertFields)
    (nonceHalf clientPK clientSK query datagram : list Z) (draw : Z) :
  rand_Read env = inl nonceHalf ->
  GenerateKey env = inl (clientPK, clientSK) ->
  PackBuffer msg = inl query ->
  rand_Int env = inl draw -> 1 <= draw <= 254 ->
  Dial env = None ->
  conn_Read env = inl datagram ->
  32 <= len datagram <= dnsMaxSizeUDP ->
  take 8 datagram = resolverMagic ->
  box_Open (drop 32 datagram) (take 24 (drop 8 datagram))
           (ServerPublicKey bincertFields) clientSK = None ->
  exists sent,
    Exchange env msg bincertFields = Ret (sent, (emptyMsg, Some ErrDecrypt)).
Proof.
  intros Hrand Hkey Hpack Hdraw Hd Hdial Hread Hlen Hmagic Hopen.
  destruct (ExchangeEncrypted_replied env msg bincertFields _ _ _ _ _ _
              Hrand Hkey Hpack Hdraw Hd Hdial Hread Hlen Hmagic)
    as [sent ->].
  rewrite Hopen. now exists sent.
Qed.

(** X15: a reply that opens to an empty plaintext, or to zero bytes only,
    makes the exchange panic in [removePadding]: a server holding the
    certificate's key can stop the client with one datagram. *)
Theorem ExchangeEncrypted_zero_plaintext_panics (env : exchangeEnv)
    (msg : Msg) (bincertFields : SignedBincertFields)
    (nonceHalf clientPK clientSK query datagram : list Z) (draw : Z)
    (k : nat) :
  rand_Read env = inl nonceHalf ->
  GenerateKey env = inl (clientPK, clientSK) ->
  PackBuffer msg = inl query ->
  rand_Int env = inl draw -> 1 <= draw <= 254 ->
  Dial env = None ->
  conn_Read env = inl datagram ->
  32 <= len datagram <= dnsMaxSizeUDP ->
  take 8 datagram = resolverMagic ->
  box_Open (drop 32 datagram) (take 24 (drop 8 datagram))
           (ServerPublicKey bincertFields) clientSK = Some (replicate k 0) ->
  Exchange env msg bincertFields = Panic.
Proof.
  intros Hrand Hkey Hpack Hdraw Hd Hdial Hread Hlen Hmagic Hopen.
  destruct (ExchangeEncrypted_replied env msg bincertFields _ _ _ _ _ _
              Hrand Hkey Hpack Hdraw Hd Hdial Hread Hlen Hmagic)
    as [sent ->].
  rewrite Hopen. unfold removePadding. rewrite TrimRight_zeros. reflexivity.
Qed.

(** X16: what a success of [ExchangeEncrypted] means.  When the call
    returns a message and no error, the datagram read has at least 32 bytes
    and starts with the resolver magic, its bytes from 32 on open under the
    nonce made of its bytes 8 to 32, the plaintext is a message followed by
    0x80 and zero bytes, and the message returned is the decoding of that
    message. *)
Theorem ExchangeEncrypted_sound (env : exchangeEnv) (msg : Msg)
    (bincertFields : SignedBincertFields) (datagram : list Z)
    (sent : list (list Z)) (reply : Msg) :
  conn_Read env = inl datagram ->
  len datagram <= dnsMaxSizeUDP ->
  Exchange env msg bincertFields = Ret (sent, (reply, None)) ->
  32 <= len datagram /\
  take 8 datagram = resolverMagic /\
  exists clientPK clientSK plain response k,
    GenerateKey env = inl (clientPK, clientSK) /\
    box_Open (drop 32 datagram) (take 24 (drop 8 datagram))
             (ServerPublicKey bincertFields) clientSK = Some plain /\
    plain = response ++ 0x80 :: replicate k 0 /\
    Unpack response = inl reply.
Proof.
  intros Hread Hlen. pose proof dnsMaxSizeUDP_value as HM.
  destruct (header_bytes datagram Hlen) as [Hslice Hheader].
  unfold ExchangeEncrypted. rewrite Hread.
  destruct (rand_Read env) as [nonceHalf|]; [|discriminate].
  destruct (GenerateKey env) as [[clientPK clientSK]|]; [|discriminate].
  destruct (PackBuffer msg) as [query|]; [|discriminate].
  destruct (addPadding (rand_Int env) query) as [[padded [e|]]| |];
    cbn [mbind run_bind bind]; try discriminate.
  destruct (Dial env); [discriminate|].
  fold (received datagram). cbv zeta. rewrite Hslice.
  cbn [mbind run_bind bind]. rewrite Hheader.
  cbn [ServerMagic EchoedClientNonce ServerNonce ClientNonce].
  unfold bytes_eqb at 1.
  destruct (bool_decide_reflect (take 8 (received datagram) = resolverMagic))
    as [Hm|]; [|discriminate].
  cbn [negb]. apply received_magic in Hm; trivial.
  destruct (Z.lt_ge_cases (len datagram) 32) as [Hs|Hs].
  { rewrite slice_out by lia. discriminate. }
  rewrite encrypted_response by lia. cbn [mbind run_bind bind].
  rewrite response_nonce by (try lia; apply length_query_nonce).
  destruct (box_Open _ _ _ _) as [plain|] eqn:Hopen; [|discriminate].
  destruct (removePadding_outcome plain)
    as [(n & _ & Hr) | [(o & k & Hp & Hr) | (t & x & k & _ & _ & _ & Hr)]];
    rewrite Hr; cbn [mbind run_bind bind]; try discriminate.
  destruct (Unpack o) as [m|] eqn:Hunpack; [|discriminate].
  intros [= _ ->]. split; [lia|]. split; [exact Hm|].
  exists clientPK, clientSK, plain, o, k. repeat split; trivial.
Qed.

End ExchangeLaws.

Section ExchangeResults.

Variable box_Seal : list Z -> list Z -> list Z -> list Z -> list Z.
Variable box_Open : list Z -> list Z -> list Z -> list Z -> option (list Z).
Variable Msg : Type.
Variable emptyMsg : Msg.
Variable PackBuffer : Msg -> list Z + error.
Variable Unpack : list Z -> Msg + error.

Local Abbreviation Exchange :=
  (ExchangeEncrypted box_Seal box_Open Msg emptyMsg PackBuffer Unpack).

(** X17: the datagram of the query.  Once the connection is there, what a
    returning call has written to it is one datagram: the client magic of
    the certificate, the fresh public key, the twelve bytes of the client
    nonce half, and the padded query sealed under the nonce made of that
    half followed by twelve zero bytes, for the server key of the
    certificate. *)
Theorem ExchangeEncrypted_query_datagram (env : exchangeEnv) (msg : Msg)
    (bincertFields : SignedBincertFields)
    (nonceHalf clientPK clientSK query : list Z) (draw : Z)
    (sent : list (list Z)) (result : Msg * option error) :
  rand_Read env = inl nonceHalf -> len nonceHalf = 12 ->
  GenerateKey env = inl (clientPK, clientSK) ->
  PackBuffer msg = inl query ->
  rand_Int env = inl draw -> 1 <= draw <= 254 ->
  Dial env = None ->
  Exchange env msg bincertFields = Ret (sent, result) ->
  sent = [MagicQuery bincertFields ++ clientPK ++ nonceHalf
          ++ box_Seal (query ++ 0x80 :: replicate (Z.to_nat (draw - 1)) 0)
                      (nonceHalf ++ replicate 12 0)
                      (ServerPublicKey bincertFields) clientSK].
Proof.
  intros Hrand Hnonce Hkey Hpack Hdraw Hd Hdial.
  unfold ExchangeEncrypted.
  rewrite Hrand, Hkey, Hpack, Hdraw, Hdial, addPadding_draw by trivial.
  cbn [mbind run_bind bind ClientNonce]. cbv zeta.
  unfold Write_dnsCryptQueryHeader.
  cbn [ClientMagic ClientPublicKey ClientNonce].
  rewrite query_nonce, fill_exact by trivial. rewrite <- !app_assoc.
  unfold mbind, run_bind, bind.
  repeat case_match; intros [= <- _]; reflexivity.
Qed.

(** X18: no partial result.  Whenever [ExchangeEncrypted] returns an error,
    the message it returns with it is the zero message. *)
Theorem ExchangeEncrypted_error_zero (env : exchangeEnv) (msg : Msg)
    (bincertFields : SignedBincertFields) (sent : list (list Z))
    (reply : Msg) (e : error) :
  Exchange env msg bincertFields = Ret (sent, (reply, Some e)) ->
  reply = emptyMsg.
Proof.
  unfold ExchangeEncrypted. cbv zeta. unfold mbind, run_bind, bind.
  repeat case_match; intros [= _ <- _]; reflexivity.
Qed.

End ExchangeResults.

(** The exchange of the test environment at a draw of zero. *)
Lemma ExchangeEncrypted_zero_draw_panics_witness :
  ExchangeEncrypted toySeal toyOpen (list Z) [] inl inl
    {| rand_Read := inl testNonceHalf; GenerateKey := inl (testPK, testSK);
       rand_Int := inl 0; Dial := None; conn_Read := inl foreignReply |}
    [7; 7] (certFields 75)
  = Panic.
Proof.
  apply (ExchangeEncrypted_zero_draw_panics toySeal toyOpen (list Z) []
           inl inl _ [7; 7] (certFields 75) testNonceHalf testPK testSK
           [7; 7]); reflexivity.
Defined.

(** A reply whose box does not carry the nonce of its header. *)
Lemma ExchangeEncrypted_decrypt_failure_witness :
  exists sent,
    ExchangeEncrypted toySeal toyOpen (list Z) [] inl inl
      (testEnv (resolverMagic ++ foreignNonce ++ replicate 30 7))
      [7; 7] (certFields 75)
    = Ret (sent, ([], Some ErrDecrypt)).
Proof.
  apply (ExchangeEncrypted_decrypt_failure toySeal toyOpen (list Z) []
           inl inl (testEnv (resolverMagic ++ foreignNonce ++ replicate 30 7))
           [7; 7] (certFields 75) testNonceHalf testPK testSK [7; 7]
           (resolverMagic ++ foreignNonce ++ replicate 30 7) 3);
    first [ reflexivity | lia | vm_compute; split; discriminate ].
Defined.

(** A reply whose plaintext is two zero bytes. *)
Lemma ExchangeEncrypted_zero_plaintext_panics_witness :
  ExchangeEncrypted toySeal toyOpen (list Z) [] inl inl
    (testEnv (resolverMagic ++ foreignNonce
                ++ toySeal [0; 0] foreignNonce [] []))
    [7; 7] (certFields 75)
  = Panic.
Proof.
  apply (ExchangeEncrypted_zero_plaintext_panics toySeal toyOpen (list Z) []
           inl inl
           (testEnv (resolverMagic ++ foreignNonce
                       ++ toySeal [0; 0] foreignNonce [] []))
           [7; 7] (certFields 75) testNonceHalf testPK testSK [7; 7]
           (resolverMagic ++ foreignNonce ++ toySeal [0; 0] foreignNonce [] [])
           3 2);
    first [ reflexivity | lia | vm_compute; split; discriminate ].
Defined.

(** The accepted reply of the test vectors, seen from its end. *)
Lemma ExchangeEncrypted_sound_witness :
  32 <= len foreignReply /\
  take 8 foreignReply = resolverMagic /\
  exists clientPK clientSK plain response k,
    GenerateKey (testEnv foreignReply) = inl (clientPK, clientSK) /\
    toyOpen (drop 32 foreignReply) (take 24 (drop 8 foreignReply))
            (ServerPublicKey (certFields 75)) clientSK = Some plain /\
    plain = response ++ 0x80 :: replicate k 0 /\
    inl response = @inl (list Z) error [42; 43].
Proof.
  apply (ExchangeEncrypted_sound toySeal toyOpen (list Z) [] inl inl
           (testEnv foreignReply) [7; 7] (certFields 75) foreignReply
           [MagicQuery (certFields 75) ++ testPK ++ testNonceHalf
            ++ toySeal [7; 7; 0x80; 0; 0] (testNonceHalf ++ replicate 12 0)
                       (ServerPublicKey (certFields 75)) testSK]
           [42; 43]).
  - reflexivity.
  - vm_compute. discriminate.
  - vm_compute. reflexivity.
Defined.

(** The datagram the test environment sends. *)
Lemma ExchangeEncrypted_query_datagram_witness :
  ExchangeEncrypted toySeal toyOpen (list Z) [] inl inl
    (testEnv foreignReply) [7; 7] (certFields 75)
  = Ret ([MagicQuery (certFields 75) ++ testPK ++ testNonceHalf
          ++ toySeal ([7; 7] ++ 0x80 :: replicate (Z.to_nat (3 - 1)) 0)
                     (testNonceHalf ++ replicate 12 0)
                     (ServerPublicKey (certFields 75)) testSK],
         ([42; 43], None)) /\
  [MagicQuery (certFields 75) ++ testPK ++ testNonceHalf
   ++ toySeal ([7; 7] ++ 0x80 :: replicate (Z.to_nat (3 - 1)) 0)
              (testNonceHalf ++ replicate 12 0)
              (ServerPublicKey (certFields 75)) testSK]
  = [MagicQuery (certFields 75) ++ testPK ++ testNonceHalf
     ++ toySeal ([7; 7] ++ 0x80 :: replicate (Z.to_nat (3 - 1)) 0)
                (testNonceHalf ++ replicate 12 0)
                (ServerPublicKey (certFields 75)) testSK].
Proof.
  split; [vm_compute; reflexivity|].
  apply (ExchangeEncrypted_query_datagram toySeal toyOpen (list Z) []
           inl inl (testEnv foreignReply) [7; 7] (certFields 75)
           testNonceHalf testPK testSK [7; 7] 3 _ ([42; 43], None));
    first [ reflexivity | lia | vm_compute; reflexivity ].
Defined.

(** A reply of three zero bytes: the magic does not match. *)
Lemma ExchangeEncrypted_error_zero_witness :
  @nil Z = [] /\
  exists sent,
    ExchangeEncrypted toySeal toyOpen (list Z) [] inl inl
      (testEnv [0; 0; 0]) [7; 7] (certFields 75)
    = Ret (sent, ([], Some ErrMagicMismatch)).
Proof.
  split.
  - apply (ExchangeEncrypted_error_zero toySeal toyOpen (list Z) [] inl inl
             (testEnv [0; 0; 0]) [7; 7] (certFields 75)
             [MagicQuery (certFields 75) ++ testPK ++ testNonceHalf
              ++ toySeal [7; 7; 0x80; 0; 0] (testNonceHalf ++ replicate 12 0)
                         (ServerPublicKey (certFields 75)) testSK]
             [] ErrMagicMismatch).
    vm_compute. reflexivity.
  - eexists. vm_compute. reflexivity.
Defined.

Section ResolverAborts.

Variable ed25519_Verify : list Z -> list Z -> list Z -> run bool.

(** X19: one TXT record that is not a certificate fails the call.  Behind
    answers that decode, a record of five bytes or more whose text has a bad
    escape, or decodes to fewer than the 124 bytes of a certificate, makes
    the call return the escape error or the unexpected-end error, also when
    a certificate that would have been accepted came before it. *)
Theorem GetValidCert_not_a_certificate (pre post : list RR)
    (certs : list signedBincert) (txt0 unpacked : list Z)
    (more : list (list Z)) (err : option error)
    (providerKey : list Z) (nowSigned : Z) :
  Forall2 (fun a c => parseAnswer a = Some c) pre certs ->
  5 <= len txt0 ->
  unpackTXT txt0 = Ret (unpacked, err) ->
  err <> None \/ 0 < len unpacked < 124 ->
  GetValidCert ed25519_Verify (inl (pre ++ TXT (txt0 :: more) :: post))
               providerKey nowSigned
  = Ret (zeroFields,
         Some match err with Some e => e | None => ErrUnexpectedEOF end).
Proof.
  intros Hpre Hlen Hunpack Hbad. unfold GetValidCert.
  replace (len (pre ++ TXT (txt0 :: more) :: post) =? 0) with false.
  2:{ symmetry. apply Z.eqb_neq. rewrite len_app, len_cons.
      pose proof (len_nonneg pre). pose proof (len_nonneg post). lia. }
  rewrite (GetValidCert_loop_prefix _ _ Hpre).
  cbn [GetValidCert_loop].
  rewrite (index_ok _ 0 txt0) by (try reflexivity; lia).
  cbn [mbind run_bind bind].
  destruct (magic_test_false txt0 Hlen) as [-> Hmagic].
  cbn [mbind run_bind bind]. rewrite Hmagic, Hunpack.
  cbn [mbind run_bind bind].
  destruct err as [e|]; [reflexivity|].
  destruct Hbad as [|Hshort]; [congruence|].
  unfold Read_signedBincert, ReadFull.
  replace (len unpacked =? 0) with false by (symmetry; apply Z.eqb_neq; lia).
  replace (len unpacked <? 124) with true by (symmetry; apply Z.ltb_lt; lia).
  reflexivity.
Qed.

End ResolverAborts.

(** A record of plain text behind a certificate. *)
Lemma GetValidCert_not_a_certificate_witness :
  GetValidCert acceptAll
    (inl ([TXT [certText certificateMagic 1 75]]
            ++ TXT [[118; 61; 115; 112; 102; 49]] :: []))
    testKey testNow
  = Ret (zeroFields, Some ErrUnexpectedEOF).
Proof.
  apply (GetValidCert_not_a_certificate acceptAll
           [TXT [certText certificateMagic 1 75]] []
           [certParsed certificateMagic 1 75]
           [118; 61; 115; 112; 102; 49] [118; 61; 115; 112; 102; 49]
           [] None testKey testNow).
  - repeat constructor; vm_compute; reflexivity.
  - vm_compute. discriminate.
  - reflexivity.
  - right. vm_compute. split; reflexivity.
Defined.
